(** * stream2sentence: the boundary classifier and the incremental splitter

    A shallow embedding of [tokenizer.go], [text_utils.go] and the
    [SentenceSplitter] of the Go port of stream2sentence, followed by the
    properties of its specification.

    Modelling conventions.
    - A Go [string] holding valid UTF-8 is the list of its code points
      ([text]); [Len] is Go's [len], the number of bytes of the UTF-8
      encoding.  [for _, r := range s] and [[]rune(s)] are then the list
      itself, and [WriteRune] appends one element.
    - Go's [int] is the 64-bit two's complement integer; sums and differences
      that involve configuration values are wrapped by [int64].
    - The tables of Go's [unicode] package that are too large to list
      ([IsDigit], [IsLetter], [IsUpper], [IsLower], [ToLower]) are the
      fields of the class [UnicodeTables]; [IsSpace] is small and is written
      out.
    - A channel that is drained by its reader is the list of the values sent
      on it, in order. *)

From Stdlib Require Import String Ascii.
From Stdlib Require Import ZArith List Bool Lia.
From Stdlib Require Import FunctionalExtensionality.
Import ListNotations.
Open Scope Z_scope.

(* ================================================================== *)
(** ** Runes and strings *)

Definition rune := Z.
Definition text := list rune.

Definition runeOfAscii (a : ascii) : rune := Z.of_nat (nat_of_ascii a).

(** The code points of an ASCII literal. *)
Definition str (s : string) : text := map runeOfAscii (list_ascii_of_string s).

Definition chTab : rune := 9.      (* '\t' *)
Definition chNL : rune := 10.      (* '\n' *)
Definition chCR : rune := 13.      (* '\r' *)
Definition chSpace : rune := 32.   (* ' ' *)
Definition chPlus : rune := 43.    (* '+' *)
Definition chComma : rune := 44.   (* ',' *)
Definition chDash : rune := 45.    (* '-' *)
Definition chDot : rune := 46.     (* '.' *)
Definition chEquals : rune := 61.  (* '=' *)
Definition chUnderscore : rune := 95. (* '_' *)
Definition chPipe : rune := 124.   (* '|' *)

(** [utf8.RuneLen], with the replacement character (3 bytes) written for
    what is not a Unicode scalar value, as [WriteRune] does. *)
Definition RuneLen (r : rune) : Z :=
  if r <? 0 then 3
  else if r <=? 0x7F then 1
  else if r <=? 0x7FF then 2
  else if (0xD800 <=? r) && (r <=? 0xDFFF) then 3
  else if r <=? 0xFFFF then 3
  else if r <=? 0x10FFFF then 4
  else 3.

(** Go's [len(s)]: the length in bytes. *)
Fixpoint Len (t : text) : Z :=
  match t with
  | [] => 0
  | r :: t' => RuneLen r + Len t'
  end.

Definition int64 (z : Z) : Z := (z + 2 ^ 63) mod 2 ^ 64 - 2 ^ 63.

Fixpoint eqText (a b : text) : bool :=
  match a, b with
  | [], [] => true
  | x :: a', y :: b' => (x =? y) && eqText a' b'
  | _, _ => false
  end.

Definition isEmpty (t : text) : bool :=
  match t with [] => true | _ :: _ => false end.

(** [runes[i]] for an index in range. *)
Definition runeAt (runes : text) (i : nat) : rune := nth i runes 0.

(** [runes[lo:hi]]. *)
Definition slice (runes : text) (lo hi : nat) : text :=
  firstn (hi - lo) (skipn lo runes).

(* ================================================================== *)
(** ** The [unicode] package *)

(** [unicode.IsSpace]: the Latin-1 cases of its switch, then the
    [White_Space] table. *)
Definition IsSpace (r : rune) : bool :=
  ((9 <=? r) && (r <=? 13)) || (r =? 0x20) || (r =? 0x85) || (r =? 0xA0)
  || (r =? 0x1680) || ((0x2000 <=? r) && (r <=? 0x200A))
  || (r =? 0x2028) || (r =? 0x2029) || (r =? 0x202F) || (r =? 0x205F)
  || (r =? 0x3000).

Class UnicodeTables := {
  IsDigit : rune -> bool;
  IsLetter : rune -> bool;
  IsUpper : rune -> bool;
  IsLower : rune -> bool;
  ToLower : rune -> rune
}.

(** What the five tables are on ASCII. *)
Definition asciiIsDigit (r : rune) : bool := (48 <=? r) && (r <=? 57).
Definition asciiIsUpper (r : rune) : bool := (65 <=? r) && (r <=? 90).
Definition asciiIsLower (r : rune) : bool := (97 <=? r) && (r <=? 122).
Definition asciiIsLetter (r : rune) : bool := asciiIsUpper r || asciiIsLower r.
Definition asciiToLower (r : rune) : rune := if asciiIsUpper r then r + 32 else r.

Definition asciiTables : UnicodeTables :=
  {| IsDigit := asciiIsDigit;
     IsLetter := asciiIsLetter;
     IsUpper := asciiIsUpper;
     IsLower := asciiIsLower;
     ToLower := asciiToLower |}.

Definition isAscii (r : rune) : bool := (0 <=? r) && (r <? 128).

(** Tables that are Go's on the ASCII range; nothing is asked of them
    elsewhere. *)
Definition AsciiExact (U : UnicodeTables) : Prop :=
  forall r, isAscii r = true ->
    IsDigit r = asciiIsDigit r /\ IsLetter r = asciiIsLetter r /\
    IsUpper r = asciiIsUpper r /\ IsLower r = asciiIsLower r /\
    ToLower r = asciiToLower r.

(** [U], with the ASCII range read from the ASCII definitions. *)
Definition onAscii {A} (f g : rune -> A) (r : rune) : A :=
  if isAscii r then f r else g r.

Definition asciiPatched (U : UnicodeTables) : UnicodeTables :=
  {| IsDigit := onAscii asciiIsDigit IsDigit;
     IsLetter := onAscii asciiIsLetter IsLetter;
     IsUpper := onAscii asciiIsUpper IsUpper;
     IsLower := onAscii asciiIsLower IsLower;
     ToLower := onAscii asciiToLower ToLower |}.

(* ================================================================== *)
(** ** The [strings] package *)

Module Strings.

Fixpoint dropWhile (p : rune -> bool) (t : text) : text :=
  match t with
  | [] => []
  | r :: t' => if p r then dropWhile p t' else t
  end.

Definition TrimLeftFunc (t : text) (p : rune -> bool) : text := dropWhile p t.

Definition TrimRightFunc (t : text) (p : rune -> bool) : text :=
  rev (dropWhile p (rev t)).

Definition TrimSpace (t : text) : text :=
  TrimRightFunc (TrimLeftFunc t IsSpace) IsSpace.

Definition ContainsRune (set : text) (r : rune) : bool :=
  existsb (Z.eqb r) set.

Definition TrimLeft (t cutset : text) : text :=
  dropWhile (ContainsRune cutset) t.

Fixpoint HasPrefix (t prefix : text) : bool :=
  match prefix, t with
  | [], _ => true
  | p :: prefix', r :: t' => (r =? p) && HasPrefix t' prefix'
  | _ :: _, [] => false
  end.

Definition HasSuffix (t suffix : text) : bool :=
  HasPrefix (rev t) (rev suffix).

(** [strings.Count(t, string(c))] for a one-character pattern. *)
Fixpoint Count (t : text) (c : rune) : Z :=
  match t with
  | [] => 0
  | r :: t' => (if r =? c then 1 else 0) + Count t' c
  end.

(** [strings.Split(t, string(sep))] for a one-character separator: always
    at least one piece. *)
Fixpoint Split (t : text) (sep : rune) : list text :=
  match t with
  | [] => [[]]
  | r :: t' =>
      if r =? sep then [] :: Split t' sep
      else match Split t' sep with
           | [] => [[r]]
           | piece :: pieces => (r :: piece) :: pieces
           end
  end.

Fixpoint Join (parts : list text) (sep : text) : text :=
  match parts with
  | [] => []
  | [p] => p
  | p :: ps => p ++ sep ++ Join ps sep
  end.

Definition ToLowerText {U : UnicodeTables} (t : text) : text := map ToLower t.

End Strings.
Import Strings.

(* ================================================================== *)
(** ** text_utils.go *)

Definition CleanupFlags := Z.

Definition CleanupLinks : CleanupFlags := 1.
Definition CleanupEmojis : CleanupFlags := 2.
Definition CleanupTable : CleanupFlags := 4.
Definition StripText : CleanupFlags := 8.
Definition CleanupAll : CleanupFlags :=
  Z.lor (Z.lor (Z.lor CleanupLinks CleanupEmojis) CleanupTable) StripText.
Definition CleanupBasic : CleanupFlags :=
  Z.lor (Z.lor CleanupLinks CleanupEmojis) StripText.

Definition HasFlag (f flag : CleanupFlags) : bool :=
  negb (Z.land f flag =? 0).

Definition stripHTTPURLs (t : text) : text :=
  let words := Split t chSpace in
  let cleanedWords :=
    filter (fun word => negb (HasPrefix word (str "http://"))
                        && negb (HasPrefix word (str "https://"))) words in
  Join cleanedWords [chSpace].

(** The loop of [normalizeNewlines], with its counter. *)
Fixpoint normalizeLines (lines : list text) (emptyLineCount : Z) : list text :=
  match lines with
  | [] => []
  | line :: rest =>
      if isEmpty (TrimSpace line) then
        let emptyLineCount' := emptyLineCount + 1 in
        if emptyLineCount' <=? 1 then line :: normalizeLines rest emptyLineCount'
        else normalizeLines rest emptyLineCount'
      else line :: normalizeLines rest 0
  end.

Definition normalizeNewlines (t : text) : text :=
  Join (normalizeLines (Split t chNL) 0) [chNL].

Definition isEmojiRune (r : rune) : bool :=
  ((0x1F600 <=? r) && (r <=? 0x1F64F)) ||
  ((0x1F300 <=? r) && (r <=? 0x1F5FF)) ||
  ((0x1F680 <=? r) && (r <=? 0x1F6FF)) ||
  ((0x1F1E6 <=? r) && (r <=? 0x1F1FF)) ||
  ((0x2600 <=? r) && (r <=? 0x26FF)) ||
  ((0x2700 <=? r) && (r <=? 0x27BF)) ||
  ((0xFE00 <=? r) && (r <=? 0xFE0F)) ||
  ((0x1F900 <=? r) && (r <=? 0x1F9FF)) ||
  ((0x1F018 <=? r) && (r <=? 0x1F270)) ||
  (r =? 0x200D).

Definition stripEmojis (t : text) : text :=
  filter (fun r => negb (isEmojiRune r)) t.

Definition isTableArt (r : rune) : bool :=
  (r =? chDash) || (r =? chEquals) || (r =? chUnderscore) || (r =? chPlus)
  || (r =? chPipe) || (r =? chSpace) || (r =? chTab).

(** [float64(tableChars)/float64(lineLen) > 0.5].  Both operands are
    lengths of one string, far below 2^53, where the conversion is exact
    and the correctly rounded quotient exceeds one half exactly when
    [2 * tableChars > lineLen]. *)
Definition ratioAboveHalf (tableChars lineLen : Z) : bool :=
  lineLen <? 2 * tableChars.

Definition detectTableLine (line : text) : bool :=
  let trimmed := TrimSpace line in
  if isEmpty trimmed then false
  else
    let pipeCount := Count trimmed chPipe in
    let tabCount := Count trimmed chTab in
    let plusCount := Count trimmed chPlus in
    let dashCount := Count trimmed chDash in
    let equalsCount := Count trimmed chEquals in
    let lineLen := Len trimmed in
    if (2 <=? pipeCount) || (2 <=? tabCount) then true
    else
      let tableChars := pipeCount + plusCount + dashCount + equalsCount in
      if (0 <? lineLen) && ratioAboveHalf tableChars lineLen then true
      else if (3 <? lineLen) && forallb isTableArt trimmed then true
      else if HasPrefix trimmed [chPipe] && HasSuffix trimmed [chPipe] then true
      else false.

(** The loop of [stripTableStructures] over the lines, with the slice it
    appends to. *)
Fixpoint stripTableLines (lines cleanedLines : list text) : list text :=
  match lines with
  | [] => cleanedLines
  | line :: rest =>
      if detectTableLine line then
        if (0 <? length cleanedLines)%nat && negb (isEmpty (last cleanedLines []))
        then stripTableLines rest (cleanedLines ++ [[]])
        else stripTableLines rest cleanedLines
      else stripTableLines rest (cleanedLines ++ [line])
  end.

Definition stripTableStructures (t : text) : text :=
  normalizeNewlines (Join (stripTableLines (Split t chNL) []) [chNL]).

Definition CleanText (t : text) (flags : CleanupFlags) : text :=
  let result := t in
  let result := if HasFlag flags CleanupTable then stripTableStructures result else result in
  let result := if HasFlag flags CleanupLinks then stripHTTPURLs result else result in
  let result := if HasFlag flags CleanupEmojis then stripEmojis result else result in
  let result := if HasFlag flags StripText then TrimSpace result else result in
  result.

(* ================================================================== *)
(** ** tokenizer.go *)

Definition commonAbbreviations : list text :=
  map str ["Mr"; "Mrs"; "Ms"; "Dr"; "Prof"; "Rev"; "St"; "Jr"; "Sr"; "Inc";
           "Ltd"; "Corp"; "Co"; "Ave"; "Blvd"; "vs"; "etc"; "ie"; "eg";
           "am"; "pm"]%string.

(** [commonAbbreviations[key]]: a missing key reads [false]. *)
Definition isCommonAbbreviation (key : text) : bool :=
  existsb (eqText key) commonAbbreviations.

(** [for start >= 0 && unicode.IsLetter(runes[start]) { start-- }; start++],
    entered with [start = n - 1]. *)
Fixpoint letterRunStart {U : UnicodeTables} (runes : text) (n : nat) : nat :=
  match n with
  | O => O
  | S start => if IsLetter (runeAt runes start) then letterRunStart runes start else n
  end.

Definition isAbbreviation {U : UnicodeTables} (runes : text) (dotPos : nat) : bool :=
  if (dotPos <? 2)%nat then false
  else
    let start := letterRunStart runes dotPos in
    if (dotPos <=? start)%nat then false
    else
      let abbrev := slice runes start dotPos in
      isCommonAbbreviation abbrev || isCommonAbbreviation (ToLowerText abbrev).

(** The loop of [findNextNonSpace] at index [i], [rest] being [runes[i:]];
    [None] is the source's [-1]. *)
Fixpoint findNonSpaceFrom (rest : text) (i : nat) : option nat :=
  match rest with
  | [] => None
  | r :: rest' => if negb (IsSpace r) then Some i else findNonSpaceFrom rest' (S i)
  end.

Definition findNextNonSpace (runes : text) (start : nat) : option nat :=
  findNonSpaceFrom (skipn start runes) start.

(** [for lineStart > 0 && runes[lineStart-1] != '\n' { lineStart-- }]. *)
Fixpoint scanLineStart (runes : text) (lineStart : nat) : nat :=
  match lineStart with
  | O => O
  | S before => if runeAt runes before =? chNL then lineStart
                else scanLineStart runes before
  end.

(** [for lineEnd < len(runes)-1 && runes[lineEnd+1] != '\n' { lineEnd++ }],
    [rest] being [runes[lineEnd+1:]]. *)
Fixpoint scanLineEnd (rest : text) (lineEnd : nat) : nat :=
  match rest with
  | [] => lineEnd
  | r :: rest' => if r =? chNL then lineEnd else scanLineEnd rest' (S lineEnd)
  end.

Definition lineStartOf (runes : text) (pos : nat) : nat := scanLineStart runes pos.

Definition lineEndOf (runes : text) (pos : nat) : nat :=
  scanLineEnd (skipn (S pos) runes) pos.

(** The line of [pos]: [runes[lineStart : lineEnd+1]]. *)
Definition lineOf (runes : text) (pos : nat) : text :=
  slice runes (lineStartOf runes pos) (S (lineEndOf runes pos)).

(** The two counting loops: pipes in [runes[lineStart:pos]] and in
    [runes[pos+1:lineEnd+1]]. *)
Definition pipesBefore (runes : text) (pos : nat) : Z :=
  Count (slice runes (lineStartOf runes pos) pos) chPipe.

Definition pipesAfter (runes : text) (pos : nat) : Z :=
  Count (slice runes (S pos) (S (lineEndOf runes pos))) chPipe.

Definition isInsideTableCell (runes : text) (pos : nat) : bool :=
  if detectTableLine (lineOf runes pos) then
    (0 <? pipesBefore runes pos) && (0 <? pipesAfter runes pos)
  else false.

(** [pos > 0 && pos < len(runes)-1 && IsDigit(runes[pos-1]) && IsDigit(runes[pos+1])]. *)
Definition digitOnBothSides {U : UnicodeTables} (runes : text) (pos : nat) : bool :=
  (0 <? pos)%nat && (pos <? length runes - 1)%nat
  && IsDigit (runeAt runes (pos - 1)) && IsDigit (runeAt runes (pos + 1)).

Definition isEndOfSentence {U : UnicodeTables} (runes : text) (pos : nat) : bool :=
  let current := runeAt runes pos in
  if isInsideTableCell runes pos then false
  else if current =? chDot then
    if digitOnBothSides runes pos then false
    else if (0 <? pos)%nat && isAbbreviation runes pos then false
    else
      match findNextNonSpace runes (pos + 1) with
      | None => true
      | Some nextNonSpace =>
          if IsUpper (runeAt runes nextNonSpace) then true
          else if IsLower (runeAt runes nextNonSpace) then false
          else true
      end
  else if current =? chComma then
    if digitOnBothSides runes pos then false else true
  else true.

(** [sentences = append(sentences, sentence)] when [sentence] is not empty. *)
Definition appendNonEmpty (sentences : list text) (sentence : text) : list text :=
  if isEmpty sentence then sentences else sentences ++ [sentence].

(** The loop of [TokenizeSentencesWithDelimiters] at index [i]: [rest] is
    [runes[i:]], [currentSentence] the builder. *)
Fixpoint tokenizeLoop {U : UnicodeTables} (delimiterRunes runes rest : text)
    (i : nat) (currentSentence : text) (sentences : list text) : list text :=
  match rest with
  | [] => appendNonEmpty sentences (TrimSpace currentSentence)
  | r :: rest' =>
      let currentSentence := currentSentence ++ [r] in
      if negb (ContainsRune delimiterRunes r) then
        tokenizeLoop delimiterRunes runes rest' (S i) currentSentence sentences
      else if isEndOfSentence runes i then
        tokenizeLoop delimiterRunes runes rest' (S i) []
                     (appendNonEmpty sentences (TrimSpace currentSentence))
      else
        tokenizeLoop delimiterRunes runes rest' (S i) currentSentence sentences
  end.

Definition TokenizeSentencesWithDelimiters {U : UnicodeTables}
    (t delimiters : text) : list text :=
  if isEmpty t then []
  else tokenizeLoop delimiters t t 0 [] [].

(* ================================================================== *)
(** ** The sentence splitter *)

Inductive QuickYieldMode : Type :=
  | NoQuickYield
  | QuickYieldFirstFragment
  | QuickYieldAllFragments.

Definition quickYieldEnabled (m : QuickYieldMode) : bool :=
  match m with
  | NoQuickYield => false
  | QuickYieldFirstFragment | QuickYieldAllFragments => true
  end.

Definition isAllFragments (m : QuickYieldMode) : bool :=
  match m with QuickYieldAllFragments => true | _ => false end.

(** [SentenceSplitterConfig]; the field [QuickYieldMode] is [YieldMode]
    here, the name being taken by its type. *)
Record SentenceSplitterConfig : Type := {
  ContextSize : Z;
  MinimumSentenceLength : Z;
  MinimumFirstFragmentLength : Z;
  YieldMode : QuickYieldMode;
  CleanupOptions : CleanupFlags;
  SentenceFragmentDelimiters : text;
  FullSentenceDelimiters : text
}.

Definition chEllipsis : rune := 0x2026.        (* U+2026, horizontal ellipsis *)
Definition chIdeographicStop : rune := 0x3002. (* U+3002, ideographic full stop *)

(** [".?!;:,\n…)]}。-"] and [".?!\n…。"]. *)
Definition defaultFragmentDelimiters : text :=
  str ".?!;:," ++ [chNL; chEllipsis] ++ str ")]}" ++ [chIdeographicStop] ++ str "-".

Definition defaultFullDelimiters : text :=
  str ".?!" ++ [chNL; chEllipsis; chIdeographicStop].

Definition DefaultConfig : SentenceSplitterConfig :=
  {| ContextSize := 12;
     MinimumSentenceLength := 10;
     MinimumFirstFragmentLength := 10;
     YieldMode := QuickYieldAllFragments;
     CleanupOptions := CleanupAll;
     SentenceFragmentDelimiters := defaultFragmentDelimiters;
     FullSentenceDelimiters := defaultFullDelimiters |}.

(** The splitter.  [config] holds the fields that [NewSentenceSplitter]
    copies from the configuration and that nothing assigns afterwards; the
    two delimiter maps are read off the delimiter strings by
    [fragmentDelimiterSet] and [fullDelimiterSet]. *)
Record SentenceSplitter : Type := {
  config : SentenceSplitterConfig;
  inputBuffer : list text;
  buffer : text;
  isFirstSentence : bool;
  wordCount : Z;
  lastDelimiterPosition : Z
}.

Definition fragmentDelimiterSet (s : SentenceSplitter) (r : rune) : bool :=
  ContainsRune (SentenceFragmentDelimiters (config s)) r.

Definition fullDelimiterSet (s : SentenceSplitter) (r : rune) : bool :=
  ContainsRune (FullSentenceDelimiters (config s)) r.

Definition NewSentenceSplitter (cfg : SentenceSplitterConfig) : SentenceSplitter :=
  {| config := cfg;
     inputBuffer := [];
     buffer := [];
     isFirstSentence := true;
     wordCount := 0;
     lastDelimiterPosition := -1 |}.

Definition Add (s : SentenceSplitter) (chunk : text) : SentenceSplitter :=
  {| config := config s;
     inputBuffer := inputBuffer s ++ [chunk];
     buffer := buffer s;
     isFirstSentence := isFirstSentence s;
     wordCount := wordCount s;
     lastDelimiterPosition := lastDelimiterPosition s |}.

Definition setInputBuffer (s : SentenceSplitter) (q : list text) : SentenceSplitter :=
  {| config := config s;
     inputBuffer := q;
     buffer := buffer s;
     isFirstSentence := isFirstSentence s;
     wordCount := wordCount s;
     lastDelimiterPosition := lastDelimiterPosition s |}.

(** The loop of [combineSentences]. *)
Fixpoint combineLoop (minimumSentenceLength : Z) (sentences combined : list text)
    (tempSentence : text) : list text :=
  match sentences with
  | [] =>
      if negb (isEmpty tempSentence) then combined ++ [TrimSpace tempSentence]
      else combined
  | sentence :: rest =>
      if Len sentence <? minimumSentenceLength then
        combineLoop minimumSentenceLength rest combined
                    (tempSentence ++ sentence ++ [chSpace])
      else if negb (isEmpty tempSentence) then
        combineLoop minimumSentenceLength rest
                    (combined ++ [TrimSpace (tempSentence ++ sentence)]) []
      else
        combineLoop minimumSentenceLength rest (combined ++ [TrimSpace sentence]) []
  end.

Definition combineSentences (s : SentenceSplitter) (sentences : list text) : list text :=
  if (length sentences <=? 1)%nat then sentences
  else combineLoop (MinimumSentenceLength (config s)) sentences [] [].

(** Which branch of [Stream] sent a string: the quick yield of lines
    320-339 or the context-window branch of lines 341-399.  The tag is not
    part of what the channel carries; [Stream] drops it. *)
Inductive yieldPath : Type := QuickYieldPath | ContextWindowPath.

Definition trimLeftCutset : text := [chSpace; chTab; chNL; chCR].

(** The condition of the quick yield, [bufferStr] being the buffer after
    the character was written and the left trim. *)
Definition quickYieldFires (s : SentenceSplitter) (bufferStr : text) (char : rune) : bool :=
  isFirstSentence s
  && (MinimumFirstFragmentLength (config s) <? Len bufferStr)
  && quickYieldEnabled (YieldMode (config s))
  && fragmentDelimiterSet s char.

Fixpoint totalLength (sentences : list text) : Z :=
  match sentences with
  | [] => 0
  | x :: rest => Len x + totalLength rest
  end.

(** One iteration of the inner loop of [Stream] for a character that is not
    NUL. *)
Definition processChar {U : UnicodeTables} (s : SentenceSplitter) (char : rune)
    : SentenceSplitter * list (yieldPath * text) :=
  let cfg := config s in
  let bufferStr := TrimLeft (buffer s ++ [char]) trimLeftCutset in
  let wordCount1 :=
    if IsSpace char || fragmentDelimiterSet s char then int64 (wordCount s + 1)
    else wordCount s in
  if quickYieldFires s bufferStr char then
    ({| config := cfg; inputBuffer := inputBuffer s; buffer := [];
        isFirstSentence := false; wordCount := 0;
        lastDelimiterPosition := lastDelimiterPosition s |},
     [(QuickYieldPath, CleanText bufferStr (CleanupOptions cfg))])
  else if Len bufferStr <=? int64 (MinimumSentenceLength cfg + ContextSize cfg) then
    ({| config := cfg; inputBuffer := inputBuffer s; buffer := bufferStr;
        isFirstSentence := isFirstSentence s; wordCount := wordCount1;
        lastDelimiterPosition := lastDelimiterPosition s |}, [])
  else
    let lastDelimiterPosition1 :=
      if fullDelimiterSet s char then Len bufferStr - 1
      else lastDelimiterPosition s in
    let contextWindowEndPos := int64 (Len bufferStr - ContextSize cfg - 1) in
    let contextWindowStartPos :=
      let p := int64 (contextWindowEndPos - ContextSize cfg) in
      if p <? 0 then 0 else p in
    let sentences :=
      combineSentences s
        (TokenizeSentencesWithDelimiters bufferStr (SentenceFragmentDelimiters cfg)) in
    let shouldProcess :=
      (2 <? length sentences)%nat
      || ((0 <=? lastDelimiterPosition1)
          && (contextWindowStartPos <=? lastDelimiterPosition1)
          && (lastDelimiterPosition1 <=? contextWindowEndPos)) in
    if shouldProcess && (1 <? length sentences)%nat
       && (MinimumSentenceLength cfg <=? totalLength (removelast sentences))
    then
      let endsWithSpace := HasSuffix bufferStr [chSpace] in
      ({| config := cfg; inputBuffer := inputBuffer s;
          buffer := last sentences [] ++ (if endsWithSpace then [chSpace] else []);
          isFirstSentence :=
            if isAllFragments (YieldMode cfg) then true else isFirstSentence s;
          wordCount := 0;
          lastDelimiterPosition := -1 |},
       map (fun sentence => (ContextWindowPath, CleanText sentence (CleanupOptions cfg)))
           (removelast sentences))
    else
      ({| config := cfg; inputBuffer := inputBuffer s; buffer := bufferStr;
          isFirstSentence := isFirstSentence s; wordCount := wordCount1;
          lastDelimiterPosition := lastDelimiterPosition1 |}, []).

(** [for _, char := range chunk], NUL skipped. *)
Fixpoint processChunk {U : UnicodeTables} (s : SentenceSplitter) (chunk : text)
    : SentenceSplitter * list (yieldPath * text) :=
  match chunk with
  | [] => (s, [])
  | char :: rest =>
      if char =? 0 then processChunk s rest
      else
        let (s1, sent1) := processChar s char in
        let (s2, sent2) := processChunk s1 rest in
        (s2, sent1 ++ sent2)
  end.

(** [for s.inputBuffer.Len() > 0]: the front chunk is removed, then
    scanned. *)
Fixpoint drainInput {U : UnicodeTables} (s : SentenceSplitter) (queue : list text)
    : SentenceSplitter * list (yieldPath * text) :=
  match queue with
  | [] => (setInputBuffer s [], [])
  | chunk :: queue' =>
      let (s1, sent1) := processChunk (setInputBuffer s queue') chunk in
      let (s2, sent2) := drainInput s1 queue' in
      (s2, sent1 ++ sent2)
  end.

Definition StreamTagged {U : UnicodeTables} (s : SentenceSplitter)
    : SentenceSplitter * list (yieldPath * text) :=
  drainInput s (inputBuffer s).

(** [Stream], drained: the splitter afterwards and the strings sent. *)
Definition Stream {U : UnicodeTables} (s : SentenceSplitter)
    : SentenceSplitter * list text :=
  let (s', sent) := StreamTagged s in (s', map snd sent).

(** The loop of [Flush]. *)
Fixpoint flushLoop (minimumSentenceLength : Z) (flags : CleanupFlags)
    (sentences : list text) (sentenceBuffer : text) : list text :=
  match sentences with
  | [] =>
      if negb (isEmpty sentenceBuffer) then [CleanText sentenceBuffer flags] else []
  | sentence :: rest =>
      let sentenceBuffer := sentenceBuffer ++ sentence in
      if Len sentenceBuffer <? minimumSentenceLength then
        flushLoop minimumSentenceLength flags rest (sentenceBuffer ++ [chSpace])
      else
        CleanText sentenceBuffer flags
          :: flushLoop minimumSentenceLength flags rest []
  end.

(** [Flush], drained; it assigns no field of the splitter. *)
Definition Flush {U : UnicodeTables} (s : SentenceSplitter) : list text :=
  if 0 <? Len (buffer s) then
    flushLoop (MinimumSentenceLength (config s)) (CleanupOptions (config s))
      (TokenizeSentencesWithDelimiters (buffer s)
         (SentenceFragmentDelimiters (config s))) []
  else [].

(** Every chunk passed to [Add], then [Stream] drained, then [Flush]
    drained. *)
Definition addAll (s : SentenceSplitter) (chunks : list text) : SentenceSplitter :=
  fold_left Add chunks s.

Definition streamThenFlush {U : UnicodeTables} (cfg : SentenceSplitterConfig)
    (chunks : list text) : list text :=
  let (s, sent) := Stream (addAll (NewSentenceSplitter cfg) chunks) in
  sent ++ Flush s.

(** The loop of [GenerateSentences]: each chunk is added and [Stream] is
    drained before the next one is received. *)
Fixpoint generateLoop {U : UnicodeTables} (s : SentenceSplitter) (chunks : list text)
    : SentenceSplitter * list text :=
  match chunks with
  | [] => (s, [])
  | chunk :: rest =>
      let (s1, sent1) := Stream (Add s chunk) in
      let (s2, sent2) := generateLoop s1 rest in
      (s2, sent1 ++ sent2)
  end.

Definition GenerateSentences {U : UnicodeTables} (chunks : list text)
    (cfg : SentenceSplitterConfig) : list text :=
  let (s, sent) := generateLoop (NewSentenceSplitter cfg) chunks in
  sent ++ Flush s.

Definition GenerateSentencesFromString {U : UnicodeTables} (t : text)
    (cfg : SentenceSplitterConfig) : list text :=
  GenerateSentences [t] cfg.

(* ================================================================== *)
(** ** Inputs and configurations of the worked examples *)

Definition fourSentences : text :=
  str "This is a sentence. And here's another! Yet, there's more. This ends now.".



Definition abbreviationExample : text :=
  str "Dr. Smith went to U.S.A. He met Mr. Johnson.".

Definition priceExample : text :=
  str "The price is $12.50 per item. Total came to 1,234.56 dollars.".

(* ================================================================== *)
(** ** Vocabulary of the statements *)

(** [s] is where the line of [pos] starts: the position after the nearest
    newline before [pos], or the start of the text. *)
Definition IsLineStart (runes : text) (pos s : nat) : Prop :=
  (s <= pos)%nat
  /\ (s = O \/ runeAt runes (s - 1) = chNL)
  /\ (forall k, (s <= k < pos)%nat -> runeAt runes k <> chNL).

(** [e] is where the line of [pos] ends: the position before the nearest
    newline after [pos], or the end of the text. *)
Definition IsLineEnd (runes : text) (pos e : nat) : Prop :=
  (pos <= e < length runes)%nat
  /\ (S e = length runes \/ runeAt runes (S e) = chNL)
  /\ (forall k, (pos < k <= e)%nat -> runeAt runes k <> chNL).

(** The four tests of [detectTableLine], on the trimmed line. *)
Definition tableRowHeuristic (line : text) : Prop :=
  let trimmed := TrimSpace line in
  trimmed <> []
  /\ (2 <= Count trimmed chPipe
      \/ 2 <= Count trimmed chTab
      \/ Len trimmed < 2 * (Count trimmed chPipe + Count trimmed chPlus
                            + Count trimmed chDash + Count trimmed chEquals)
      \/ (3 < Len trimmed /\ forallb isTableArt trimmed = true)
      \/ (HasPrefix trimmed [chPipe] = true /\ HasSuffix trimmed [chPipe] = true)).

(** A row of three tab-separated cells: "1-2", "Hi! there" and "3-4". *)
Definition tabSeparatedRow : text :=
  str "1-2" ++ [chTab] ++ str "Hi! there" ++ [chTab] ++ str "3-4".

(** The characters of a text that are not white space, in order. *)
Definition nonSpace (t : text) : text := filter (fun r => negb (IsSpace r)) t.

(** A text without its NUL characters. *)
Definition dropNUL (t : text) : text := filter (fun r => negb (r =? 0)) t.

Definition withCleanupOptions (cfg : SentenceSplitterConfig) (flags : CleanupFlags)
    : SentenceSplitterConfig :=
  {| ContextSize := ContextSize cfg;
     MinimumSentenceLength := MinimumSentenceLength cfg;
     MinimumFirstFragmentLength := MinimumFirstFragmentLength cfg;
     YieldMode := YieldMode cfg;
     CleanupOptions := flags;
     SentenceFragmentDelimiters := SentenceFragmentDelimiters cfg;
     FullSentenceDelimiters := FullSentenceDelimiters cfg |}.

Definition withYieldMode (cfg : SentenceSplitterConfig) (mode : QuickYieldMode)
    : SentenceSplitterConfig :=
  {| ContextSize := ContextSize cfg;
     MinimumSentenceLength := MinimumSentenceLength cfg;
     MinimumFirstFragmentLength := MinimumFirstFragmentLength cfg;
     YieldMode := mode;
     CleanupOptions := CleanupOptions cfg;
     SentenceFragmentDelimiters := SentenceFragmentDelimiters cfg;
     FullSentenceDelimiters := FullSentenceDelimiters cfg |}.

(** The configuration with every cleanup option off: what it sends is what
    [cfg] sends before [CleanText]. *)
Definition uncleaned (cfg : SentenceSplitterConfig) : SentenceSplitterConfig :=
  withCleanupOptions cfg 0.

Definition uncleanedSplitter (s : SentenceSplitter) : SentenceSplitter :=
  {| config := uncleaned (config s);
     inputBuffer := inputBuffer s;
     buffer := buffer s;
     isFirstSentence := isFirstSentence s;
     wordCount := wordCount s;
     lastDelimiterPosition := lastDelimiterPosition s |}.

Definition cleanTagged (flags : CleanupFlags) (e : yieldPath * text)
    : yieldPath * text :=
  (fst e, CleanText (snd e) flags).

(** A text in which NUL does not occur. *)
Definition NoNUL (t : text) : Prop := Forall (fun r => r <> 0) t.

(** The buffer once [char] is written and the left trim is done: the
    [bufferStr] of [processChar]. *)
Definition scannedBuffer (s : SentenceSplitter) (char : rune) : text :=
  TrimLeft (buffer s ++ [char]) trimLeftCutset.

Definition fromContextWindow (e : yieldPath * text) : Prop :=
  fst e = ContextWindowPath.

(** Nine letters, a space and a newline. *)
Definition shortFirstFragment : text := str "abcdefghi " ++ [chNL].


Definition firstFragmentConfig : SentenceSplitterConfig :=
  withYieldMode DefaultConfig QuickYieldFirstFragment.

Definition quickFragmentExample : text :=
  str "This is a quick sentence fragment, and it should be yielded quickly.".


(* ================================================================== *)
(** ** avoid_pause_words.go and the delimiter-ignore prefixes

    A [map[string]bool] whose values are all [true] is the list of its
    keys; a key that is missing reads [false], and so does any key of the
    [nil] map, which is [None] here.  The two package-level maps are
    passed in and out of the functions that read or build them. *)

Definition stringSet := list text.

Definition setHas (m : stringSet) (key : text) : bool := existsb (eqText key) m.

(** [m[key]] for a map that may be [nil]. *)
Definition mapHas (g : option stringSet) (key : text) : bool :=
  match g with
  | None => false
  | Some m => setHas m key
  end.

(** [for _, word := range allWords { m[word] = true; m[strings.ToLower(word)] = true }]. *)
Fixpoint insertWords {U : UnicodeTables} (allWords : list text) (m : stringSet)
    : stringSet :=
  match allWords with
  | [] => m
  | word :: rest => insertWords rest (ToLowerText word :: word :: m)
  end.

Definition conjunctions : list text :=
  map str ["and"; "or"; "but"; "so"; "for"; "nor"; "yet"]%string.

Definition prepositions : list text :=
  map str ["in"; "on"; "at"; "by"; "with"; "about"; "of"; "to"; "for";
           "from"; "as"; "over"; "under"; "through"; "between"; "during";
           "there"]%string.

Definition articles : list text := map str ["a"; "an"; "the"]%string.

Definition possessivesAndDemonstratives : list text :=
  map str ["my"; "your"; "his"; "her"; "its"; "our"; "their";
           "this"; "that"; "these"; "those"]%string.

Definition auxiliaryVerbs : list text :=
  map str ["is"; "are"; "was"; "were"; "am"; "be"; "been"; "being";
           "do"; "does"; "did"; "have"; "has"; "had";
           "can"; "could"; "shall"; "should";
           "will"; "would"; "may"; "might"; "must"]%string.

Definition pronouns : list text :=
  map str ["I"; "we"; "you"; "he"; "she"; "it"; "they";
           "who"; "whom"; "whose"; "which"; "that"]%string.

Definition quantifiers : list text :=
  map str ["some"; "many"; "few"; "all"; "any"; "most"; "much"; "none";
           "several"]%string.

Definition adverbs : list text :=
  map str ["very"; "too"; "just"; "quite"; "almost"; "nearly"; "only"]%string.

Definition interrogatives : list text :=
  map str ["what"; "where"; "when"; "why"; "how"]%string.

Definition relativePronouns : list text := map str ["who"; "which"; "that"]%string.

Definition subordinatingConjunctions : list text :=
  map str ["although"; "because"; "if"; "since";
           "though"; "while"; "until"; "unless"]%string.

(** The [allWords] of [initAvoidPauseWords]; [relativePronouns] is not
    appended. *)
Definition avoidPauseAllWords : list text :=
  conjunctions ++ prepositions ++ articles ++ possessivesAndDemonstratives
  ++ auxiliaryVerbs ++ pronouns ++ quantifiers ++ adverbs ++ interrogatives
  ++ subordinatingConjunctions.

(** [initAvoidPauseWords], on the package variable [AvoidPauseWords]. *)
Definition initAvoidPauseWords {U : UnicodeTables} (AvoidPauseWords : option stringSet)
    : option stringSet :=
  match AvoidPauseWords with
  | Some _ => AvoidPauseWords
  | None => Some (insertWords avoidPauseAllWords [])
  end.

(** [IsAvoidPauseWord]: the package variable afterwards and the answer. *)
Definition IsAvoidPauseWord {U : UnicodeTables} (AvoidPauseWords : option stringSet)
    (word : text) : option stringSet * bool :=
  let AvoidPauseWords := initAvoidPauseWords AvoidPauseWords in
  (AvoidPauseWords,
   mapHas AvoidPauseWords word || mapHas AvoidPauseWords (ToLowerText word)).

Definition titlesAndAbbreviations : list text :=
  map str ["Mr."; "Mrs."; "Ms."; "Dr."; "Prof."; "Rev."; "St.";
           "Ph.D."; "Phd."; "PhD."; "M.D."; "B.A."; "M.A."; "D.D.S."; "J.D.";
           "Co."; "Corp."; "Ave."; "Blvd."; "Rd."; "Mt.";
           "a.m."; "p.m."; "Jr."; "Sr.";
           "Gov."; "Gen."; "Capt."; "Lt."; "Maj."; "Col."; "Adm."; "Cmdr.";
           "Sgt."; "Cpl."; "Pvt."; "U.S."; "U.K."; "vs."; "i.e."; "e.g.";
           "Vol."; "Art."; "Sec."; "Chap."; "Fig."; "Ref."; "Dept."]%string.

Definition datesAndTimes : list text :=
  map str ["Jan."; "Feb."; "Mar."; "Apr."; "Jun."; "Jul."; "Aug.";
           "Sep."; "Oct."; "Nov."; "Dec.";
           "Mon."; "Tue."; "Wed."; "Thu."; "Fri."; "Sat."; "Sun."]%string.

Definition financialAbbreviations : list text :=
  map str ["Inc."; "Ltd."; "Corp."; "PLC."; "LLC."; "LLP.";
           "P/E."; "EPS."; "NAV."; "ROI."; "ROA."; "ROE."]%string.

Definition countryAbbreviations : list text :=
  map str ["U.S.A."; "U.K."; "U.A.E."; "P.R.C."; "D.R.C."; "R.O.C.";
           "E.U."; "U.N."; "A.U.";
           "U.S."; "U.K."; "E.U."; "P.R.C."; "D.R.C."; "R.O.C."]%string.

Definition delimiterIgnoreAllPrefixes : list text :=
  titlesAndAbbreviations ++ datesAndTimes ++ financialAbbreviations
  ++ countryAbbreviations.

(** [initDelimiterIgnorePrefixes], on the package variable
    [DelimiterIgnorePrefixes]. *)
Definition initDelimiterIgnorePrefixes {U : UnicodeTables}
    (DelimiterIgnorePrefixes : option stringSet) : option stringSet :=
  match DelimiterIgnorePrefixes with
  | Some _ => DelimiterIgnorePrefixes
  | None => Some (insertWords delimiterIgnoreAllPrefixes [])
  end.

Definition IsDelimiterIgnorePrefix {U : UnicodeTables}
    (DelimiterIgnorePrefixes : option stringSet) (prefix : text)
    : option stringSet * bool :=
  let DelimiterIgnorePrefixes := initDelimiterIgnorePrefixes DelimiterIgnorePrefixes in
  (DelimiterIgnorePrefixes,
   mapHas DelimiterIgnorePrefixes prefix
   || mapHas DelimiterIgnorePrefixes (ToLowerText prefix)).

(** ** The remaining wrappers *)

Definition CleanMarkdownText (t : text) (flags : CleanupFlags) : text :=
  CleanText t flags.


(** ** Vocabulary of the further statements *)

(** The lower-case mapping leaves what it returns as it is. *)
Definition ToLowerIdempotent (U : UnicodeTables) : Prop :=
  forall r, ToLower (ToLower r) = ToLower r.

(** A text with no white space at either end. *)
Definition Trimmed (t : text) : Prop := TrimSpace t = t.

(** A line of white space only. *)
Definition isBlankLine (line : text) : bool := isEmpty (TrimSpace line).

(** A word that [stripHTTPURLs] drops. *)
Definition isURLWord (word : text) : bool :=
  HasPrefix word (str "http://") || HasPrefix word (str "https://").

(** No two neighbours of the list are both blank lines. *)
Fixpoint noBlankPair (lines : list text) : Prop :=
  match lines with
  | [] => True
  | line :: rest =>
      match rest with
      | [] => True
      | next :: _ => ~ (isBlankLine line = true /\ isBlankLine next = true)
      end /\ noBlankPair rest
  end.

(** The number of characters of [t] that are in the delimiter string. *)
Definition delimiterCount (delims t : text) : nat :=
  length (filter (ContainsRune delims) t).

(** [start] is where the run of letters that ends just before [dotPos]
    starts: the longest such run, possibly empty. *)
Definition IsLetterRunStart {U : UnicodeTables} (runes : text) (dotPos start : nat)
    : Prop :=
  (start <= dotPos)%nat
  /\ (forall k, (start <= k < dotPos)%nat -> IsLetter (runeAt runes k) = true)
  /\ (start = O \/ IsLetter (runeAt runes (start - 1)) = false).

(* ================================================================== *)
(** * Properties *)

(** ** Lengths in bytes *)

Lemma RuneLen_pos (r : rune) : 0 < RuneLen r.
Proof.
  unfold RuneLen.
  repeat match goal with
         | |- context [if ?b then _ else _] => destruct b
         end; lia.
Qed.

Lemma Len_nonneg (t : text) : 0 <= Len t.
Proof.
  induction t as [|r t IH]; cbn [Len]; [lia|]. pose proof (RuneLen_pos r). lia.
Qed.

Lemma Len_zero (t : text) : Len t <= 0 -> t = [].
Proof.
  destruct t as [|r t]; [reflexivity|]. cbn [Len].
  pose proof (RuneLen_pos r). pose proof (Len_nonneg t). lia.
Qed.

(** ** Evaluating on ASCII input *)

Lemma asciiTables_exact : AsciiExact asciiTables.
Proof. intros r _. repeat split. Qed.

(** Tables that are exact on ASCII are their own ASCII patch
    (extensionally, hence equal). *)
Lemma asciiPatched_eq (U : UnicodeTables) : AsciiExact U -> asciiPatched U = U.
Proof.
  intros H. destruct U as [d l u lo tl]. unfold asciiPatched. cbn.
  f_equal; apply functional_extensionality; intros r; unfold onAscii;
    destruct (isAscii r) eqn:E; trivial;
    destruct (H r E) as (H1 & H2 & H3 & H4 & H5); cbn in *; congruence.
Qed.

(** A closed evaluation on ASCII input, for any tables exact on ASCII. *)
Ltac by_ascii_evaluation H :=
  rewrite <- (asciiPatched_eq _ H); vm_compute; reflexivity.

(** ** The worked examples *)

(** C1.  With the default configuration, the input
    "This is a sentence. And here's another! Yet, there's more. This ends now."
    passed to [Add], then [Stream] drained, then [Flush] drained, sends the
    four sentences "This is a sentence.", "And here's another!",
    "Yet, there's more." and "This ends now.", in this order, and nothing
    else. *)
Theorem default_config_four_sentences (U : UnicodeTables) :
  AsciiExact U ->
  streamThenFlush DefaultConfig [fourSentences]
  = [str "This is a sentence."; str "And here's another!";
     str "Yet, there's more."; str "This ends now."].
Proof. intros H. by_ascii_evaluation H. Qed.

Lemma default_config_four_sentences_witness :
  @streamThenFlush asciiTables DefaultConfig [fourSentences]
  = [str "This is a sentence."; str "And here's another!";
     str "Yet, there's more."; str "This ends now."].
Proof. exact (default_config_four_sentences asciiTables asciiTables_exact). Defined.



(** C5.  What the tokenizer returns for
    "Dr. Smith went to U.S.A. He met Mr. Johnson." with the default fragment
    delimiters: the periods of "Dr." and "Mr." are no boundaries, but each
    period of "U.S.A." is one, the letter run before it ("U", "S", "A")
    being no key of [commonAbbreviations] and the next character being
    upper case. *)
Theorem abbreviation_example_tokens (U : UnicodeTables) :
  AsciiExact U ->
  TokenizeSentencesWithDelimiters abbreviationExample defaultFragmentDelimiters
  = [str "Dr. Smith went to U."; str "S."; str "A."; str "He met Mr. Johnson."].
Proof. intros H. by_ascii_evaluation H. Qed.

Lemma abbreviation_example_tokens_witness :
  @TokenizeSentencesWithDelimiters asciiTables abbreviationExample
     defaultFragmentDelimiters
  = [str "Dr. Smith went to U."; str "S."; str "A."; str "He met Mr. Johnson."].
Proof. exact (abbreviation_example_tokens asciiTables asciiTables_exact). Defined.

(** The same input through the splitter, as [TestTokenizerWithAbbreviations]
    runs it: the first sentence is cut inside "U.S.A.". *)
Lemma abbreviation_example_stream (U : UnicodeTables) :
  AsciiExact U ->
  GenerateSentencesFromString abbreviationExample DefaultConfig
  = [str "Dr. Smith went to U."; str "S. A. He met Mr. Johnson."].
Proof. intros H. by_ascii_evaluation H. Qed.

(** The price example through the splitter, as [TestTokenizerWithNumbers]
    runs it: the quick yield sends the buffer at the first delimiter scanned
    past ten bytes, the '.' of "$12.50", whatever the classifier says. *)
Lemma price_example_stream (U : UnicodeTables) :
  AsciiExact U ->
  GenerateSentencesFromString priceExample DefaultConfig
  = [str "The price is $12."; str "50 per item.";
     str "Total came to 1,234.56 dollars."].
Proof. intros H. by_ascii_evaluation H. Qed.

(** ** The boundary classifier *)

Section Classifier.
Context {U : UnicodeTables}.

Lemma digit_sides_not_boundary (runes : text) (pos : nat) :
  (0 < pos)%nat -> (pos + 1 < length runes)%nat ->
  runeAt runes pos = chDot \/ runeAt runes pos = chComma ->
  IsDigit (runeAt runes (pos - 1)) = true ->
  IsDigit (runeAt runes (pos + 1)) = true ->
  isEndOfSentence runes pos = false.
Proof.
  intros Hpos Hlen Hc Hb Ha. unfold isEndOfSentence.
  destruct (isInsideTableCell runes pos); [reflexivity|].
  assert (D : digitOnBothSides runes pos = true).
  { unfold digitOnBothSides. rewrite Hb, Ha.
    replace (0 <? pos)%nat with true by (symmetry; apply Nat.ltb_lt; lia).
    replace (pos <? length runes - 1)%nat with true
      by (symmetry; apply Nat.ltb_lt; lia).
    reflexivity. }
  destruct Hc as [Hc|Hc]; rewrite Hc; cbn; rewrite D; reflexivity.
Qed.

(** *** Next non-space character *)

Lemma findNonSpaceFrom_none (rest : text) (i : nat) :
  (forall k, (k < length rest)%nat -> IsSpace (nth k rest 0) = true) ->
  findNonSpaceFrom rest i = None.
Proof.
  revert i. induction rest as [|r rest IH]; intros i H; [reflexivity|].
  cbn [findNonSpaceFrom].
  assert (H0 : IsSpace r = true) by (apply (H O); cbn; lia).
  rewrite H0. cbn.
  apply IH. intros k Hk. apply (H (S k)). cbn; lia.
Qed.

Lemma findNonSpaceFrom_first (rest : text) (i k : nat) :
  (k < length rest)%nat ->
  IsSpace (nth k rest 0) = false ->
  (forall m, (m < k)%nat -> IsSpace (nth m rest 0) = true) ->
  findNonSpaceFrom rest i = Some (i + k)%nat.
Proof.
  revert i k. induction rest as [|r rest IH]; intros i k Hk Hns Hsp;
    [cbn in Hk; lia|].
  cbn [findNonSpaceFrom]. destruct k as [|k].
  - cbn in Hns. rewrite Hns. cbn. f_equal. lia.
  - assert (H0 : IsSpace r = true) by (apply (Hsp O); lia).
    rewrite H0. cbn.
    rewrite (IH (S i) k).
    + f_equal. lia.
    + cbn in Hk. lia.
    + exact Hns.
    + intros m Hm. apply (Hsp (S m)). lia.
Qed.

Lemma findNextNonSpace_none (runes : text) (start : nat) :
  (forall k, (start <= k < length runes)%nat -> IsSpace (runeAt runes k) = true) ->
  findNextNonSpace runes start = None.
Proof.
  intros H. apply findNonSpaceFrom_none. intros k Hk.
  rewrite length_skipn in Hk. rewrite nth_skipn. apply H. lia.
Qed.

Lemma findNextNonSpace_first (runes : text) (start j : nat) :
  (start <= j < length runes)%nat ->
  IsSpace (runeAt runes j) = false ->
  (forall k, (start <= k < j)%nat -> IsSpace (runeAt runes k) = true) ->
  findNextNonSpace runes start = Some j.
Proof.
  intros Hj Hns Hsp. unfold findNextNonSpace.
  rewrite (findNonSpaceFrom_first _ start (j - start)).
  - f_equal. lia.
  - rewrite length_skipn. lia.
  - rewrite nth_skipn. replace (start + (j - start))%nat with j by lia. exact Hns.
  - intros m Hm. rewrite nth_skipn. apply Hsp. lia.
Qed.

(** C7.  At a '.' where the table rule, the decimal rule and the
    abbreviation rule do not apply, the answer of [isEndOfSentence] is read
    off the next character that is not white space: a boundary when there
    is none, a boundary when it is upper case, no boundary when it is lower
    case, a boundary when it is neither. *)
Theorem period_decided_by_next_character (runes : text) (pos : nat) :
  (pos < length runes)%nat ->
  runeAt runes pos = chDot ->
  isInsideTableCell runes pos = false ->
  digitOnBothSides runes pos = false ->
  isAbbreviation runes pos = false ->
  ((forall k, (pos < k < length runes)%nat -> IsSpace (runeAt runes k) = true) ->
   isEndOfSentence runes pos = true)
  /\ (forall j,
        (pos < j < length runes)%nat ->
        IsSpace (runeAt runes j) = false ->
        (forall k, (pos < k < j)%nat -> IsSpace (runeAt runes k) = true) ->
        (IsUpper (runeAt runes j) = true -> isEndOfSentence runes pos = true)
        /\ (IsUpper (runeAt runes j) = false -> IsLower (runeAt runes j) = true ->
            isEndOfSentence runes pos = false)
        /\ (IsUpper (runeAt runes j) = false -> IsLower (runeAt runes j) = false ->
            isEndOfSentence runes pos = true)).
Proof.
  intros Hpos Hdot Htab Hdec Habb.
  assert (E : isEndOfSentence runes pos =
              match findNextNonSpace runes (pos + 1) with
              | None => true
              | Some n => if IsUpper (runeAt runes n) then true
                          else if IsLower (runeAt runes n) then false else true
              end).
  { unfold isEndOfSentence. rewrite Htab, Hdot, Hdec, Habb.
    cbn. rewrite andb_false_r. reflexivity. }
  split.
  - intros Hnone. rewrite E, findNextNonSpace_none; [reflexivity|].
    intros k Hk. apply Hnone. lia.
  - intros j Hj Hns Hsp.
    rewrite E, (findNextNonSpace_first runes (pos + 1) j); try assumption;
      try lia.
    + repeat split.
      * intros ->. reflexivity.
      * intros -> ->. reflexivity.
      * intros -> ->. reflexivity.
    + intros k Hk. apply Hsp. lia.
Qed.

(** *** Text without delimiters *)

Lemma tokenizeLoop_no_delimiter (delims runes rest : text) (i : nat)
      (current : text) (sentences : list text) :
  Forall (fun r => ContainsRune delims r = false) rest ->
  tokenizeLoop delims runes rest i current sentences
  = appendNonEmpty sentences (TrimSpace (current ++ rest)).
Proof.
  revert i current. induction rest as [|r rest IH]; intros i current H.
  - cbn. now rewrite app_nil_r.
  - inversion H as [|? ? Hr Hrest]; subst. cbn [tokenizeLoop].
    rewrite Hr. cbn. rewrite IH by assumption. now rewrite <- app_assoc.
Qed.

(** C3, as the code has it.  For a text in which no character of the
    delimiter string occurs, the tokenizer returns no span when the text is
    empty or white space only, and otherwise exactly one span, the trimmed
    text. *)
Theorem no_delimiter_one_span (t delims : text) :
  Forall (fun r => ContainsRune delims r = false) t ->
  TokenizeSentencesWithDelimiters t delims
  = if isEmpty (TrimSpace t) then [] else [TrimSpace t].
Proof.
  intros H. unfold TokenizeSentencesWithDelimiters.
  destruct t as [|r t]; [reflexivity|].
  cbn [isEmpty]. rewrite tokenizeLoop_no_delimiter by assumption.
  cbn [app]. unfold appendNonEmpty.
  destruct (isEmpty (TrimSpace (r :: t))); reflexivity.
Qed.

(** *** The line of a position *)

Lemma lineStartOf_unique (runes : text) (pos s : nat) :
  IsLineStart runes pos s -> lineStartOf runes pos = s.
Proof.
  unfold lineStartOf. induction pos as [|k IH]; intros (Hle & Hnl & Hno).
  - cbn. lia.
  - cbn [scanLineStart]. destruct (runeAt runes k =? chNL) eqn:E.
    + apply Z.eqb_eq in E.
      destruct (Nat.eq_dec s (S k)) as [->|Hne]; [reflexivity|].
      exfalso. apply (Hno k); [lia | exact E].
    + apply Z.eqb_neq in E. apply IH. repeat split.
      * destruct Hnl as [->|Hnl]; [lia|].
        destruct (Nat.eq_dec s (S k)) as [->|Hne]; [|lia].
        exfalso. apply E. now replace (S k - 1)%nat with k in Hnl by lia.
      * exact Hnl.
      * intros m Hm. apply Hno. lia.
Qed.

Lemma scanLineEnd_first (rest : text) (e0 k : nat) :
  (k <= length rest)%nat ->
  (k = length rest \/ nth k rest 0 = chNL) ->
  (forall m, (m < k)%nat -> nth m rest 0 <> chNL) ->
  scanLineEnd rest e0 = (e0 + k)%nat.
Proof.
  revert e0 k. induction rest as [|r rest IH]; intros e0 k Hk Hend Hno.
  - cbn in *. lia.
  - cbn [scanLineEnd]. destruct (r =? chNL) eqn:E.
    + apply Z.eqb_eq in E. destruct k as [|k]; [lia|].
      exfalso. apply (Hno O); [lia | exact E].
    + apply Z.eqb_neq in E. destruct k as [|k].
      * exfalso. destruct Hend as [Hend|Hend]; [cbn in Hend; lia | now apply E].
      * rewrite (IH (S e0) k).
        -- lia.
        -- cbn in Hk. lia.
        -- destruct Hend as [Hend|Hend]; [left; cbn in Hend; lia | right; exact Hend].
        -- intros m Hm. apply (Hno (S m)). lia.
Qed.

Lemma lineEndOf_unique (runes : text) (pos e : nat) :
  IsLineEnd runes pos e -> lineEndOf runes pos = e.
Proof.
  intros (Hle & Hnl & Hno). unfold lineEndOf.
  rewrite (scanLineEnd_first _ pos (e - pos)).
  - lia.
  - rewrite length_skipn. lia.
  - rewrite length_skipn, nth_skipn.
    destruct Hnl as [Hnl|Hnl]; [left; lia | right].
    now replace (S pos + (e - pos))%nat with (S e) by lia.
  - intros m Hm. rewrite nth_skipn. apply Hno. lia.
Qed.

Lemma Count_nonneg (t : text) (c : rune) : 0 <= Count t c.
Proof. induction t as [|r t IH]; cbn; [lia | destruct (r =? c); lia]. Qed.

Lemma Count_pos (t : text) (c : rune) : In c t -> 0 < Count t c.
Proof.
  induction t as [|r t IH]; intros Hin; [contradiction|].
  cbn. pose proof (Count_nonneg t c). destruct Hin as [->|Hin].
  - rewrite Z.eqb_refl. lia.
  - specialize (IH Hin). destruct (r =? c); lia.
Qed.

Lemma in_slice (runes : text) (lo hi i : nat) :
  (lo <= i < hi)%nat -> (hi <= length runes)%nat ->
  In (runeAt runes i) (slice runes lo hi).
Proof.
  intros Hi Hhi. unfold slice, runeAt.
  replace (nth i runes 0) with (nth (i - lo) (firstn (hi - lo) (skipn lo runes)) 0).
  - apply nth_In. rewrite length_firstn, length_skipn. lia.
  - rewrite nth_firstn, nth_skipn.
    replace (i - lo <? hi - lo)%nat with true by (symmetry; apply Nat.ltb_lt; lia).
    f_equal. lia.
Qed.

(** [detectTableLine] is the disjunction of its four tests. *)
Lemma detectTableLine_spec (line : text) :
  detectTableLine line = true <-> tableRowHeuristic line.
Proof.
  unfold detectTableLine, tableRowHeuristic, ratioAboveHalf. cbv zeta.
  destruct (TrimSpace line) as [|r t] eqn:Et.
  - cbn. split; [discriminate | intros [H _]; congruence].
  - set (trimmed := r :: t). cbn [isEmpty].
    assert (Hlen : 0 < Len trimmed).
    { unfold trimmed. cbn [Len]. pose proof (RuneLen_pos r).
      pose proof (Len_nonneg t). lia. }
    split.
    + intros H. split; [discriminate|].
      destruct ((2 <=? Count trimmed chPipe) || (2 <=? Count trimmed chTab)) eqn:E1.
      { apply orb_true_iff in E1. rewrite !Z.leb_le in E1. tauto. }
      destruct ((0 <? Len trimmed) &&
                (Len trimmed <? 2 * (Count trimmed chPipe + Count trimmed chPlus
                   + Count trimmed chDash + Count trimmed chEquals))) eqn:E2.
      { apply andb_true_iff in E2. rewrite !Z.ltb_lt in E2. tauto. }
      destruct ((3 <? Len trimmed) && forallb isTableArt trimmed) eqn:E3.
      { apply andb_true_iff in E3. rewrite Z.ltb_lt in E3. tauto. }
      destruct (HasPrefix trimmed [chPipe] && HasSuffix trimmed [chPipe]) eqn:E4.
      { apply andb_true_iff in E4. tauto. }
      discriminate.
    + intros [_ H].
      destruct ((2 <=? Count trimmed chPipe) || (2 <=? Count trimmed chTab)) eqn:E1;
        [reflexivity|].
      apply orb_false_iff in E1. rewrite !Z.leb_gt in E1.
      destruct ((0 <? Len trimmed) &&
                (Len trimmed <? 2 * (Count trimmed chPipe + Count trimmed chPlus
                   + Count trimmed chDash + Count trimmed chEquals))) eqn:E2;
        [reflexivity|].
      apply andb_false_iff in E2. rewrite !Z.ltb_ge in E2.
      destruct ((3 <? Len trimmed) && forallb isTableArt trimmed) eqn:E3;
        [reflexivity|].
      apply andb_false_iff in E3. rewrite Z.ltb_ge in E3.
      destruct (HasPrefix trimmed [chPipe] && HasSuffix trimmed [chPipe]) eqn:E4;
        [reflexivity|].
      apply andb_false_iff in E4.
      destruct H as [H|[H|[H|[[H1 H2]|[H1 H2]]]]]; try lia.
      * destruct E3 as [E3|E3]; [lia | congruence].
      * destruct E4 as [E4|E4]; congruence.
Qed.

(** C6, as the code has it.  A delimiter on a line that [detectTableLine]
    takes for a table row, with at least one pipe character before it and at
    least one after it on that line, is no boundary. *)
Theorem between_pipes_not_boundary (runes : text) (pos s e i j : nat) :
  IsLineStart runes pos s ->
  IsLineEnd runes pos e ->
  tableRowHeuristic (slice runes s (S e)) ->
  (s <= i < pos)%nat -> runeAt runes i = chPipe ->
  (pos < j <= e)%nat -> runeAt runes j = chPipe ->
  isEndOfSentence runes pos = false.
Proof.
  intros Hs He Htab Hi Hpi Hj Hpj.
  pose proof (lineStartOf_unique _ _ _ Hs) as Es.
  pose proof (lineEndOf_unique _ _ _ He) as Ee.
  destruct He as ((_ & Helen) & _).
  unfold isEndOfSentence, isInsideTableCell, lineOf, pipesBefore, pipesAfter.
  rewrite Es, Ee.
  apply detectTableLine_spec in Htab. rewrite Htab.
  assert (B : 0 < Count (slice runes s pos) chPipe).
  { apply Count_pos. rewrite <- Hpi. apply in_slice; lia. }
  assert (A : 0 < Count (slice runes (S pos) (S e)) chPipe).
  { apply Count_pos. rewrite <- Hpj. apply in_slice; lia. }
  apply Z.ltb_lt in B, A. rewrite B, A. reflexivity.
Qed.

(** *** Two pipes make a table row *)

Lemma Count_rev (t : text) (c : rune) : Count (rev t) c = Count t c.
Proof.
  induction t as [|r t IH]; [reflexivity|]. cbn [rev Count].
  assert (A : forall a b, Count (a ++ b) c = Count a c + Count b c).
  { intros a b. induction a as [|x a IHa]; cbn [app Count]; [lia | rewrite IHa; lia]. }
  rewrite A, IH. cbn [Count]. lia.
Qed.

Lemma Count_dropWhile (p : rune -> bool) (t : text) (c : rune) :
  p c = false -> Count (dropWhile p t) c = Count t c.
Proof.
  intros Hc. induction t as [|r t IH]; [reflexivity|].
  cbn [dropWhile]. destruct (p r) eqn:E; [|reflexivity].
  cbn [Count]. destruct (r =? c) eqn:Erc; [|lia].
  apply Z.eqb_eq in Erc. congruence.
Qed.

Lemma Count_TrimSpace (t : text) (c : rune) :
  IsSpace c = false -> Count (TrimSpace t) c = Count t c.
Proof.
  intros Hc. unfold TrimSpace, TrimRightFunc, TrimLeftFunc.
  now rewrite Count_rev, Count_dropWhile, Count_rev, Count_dropWhile.
Qed.

Lemma Count_two (t : text) (c : rune) (i j : nat) :
  (i < j < length t)%nat -> nth i t 0 = c -> nth j t 0 = c -> 2 <= Count t c.
Proof.
  revert i j. induction t as [|r t IH]; intros i j Hij Hi Hj; [cbn in Hij; lia|].
  destruct j as [|j]; [lia|]. cbn [nth] in Hj. cbn [length] in Hij.
  destruct i as [|i].
  - cbn in Hi. subst r. cbn [Count]. rewrite Z.eqb_refl.
    assert (0 < Count t c) by (apply Count_pos; rewrite <- Hj; apply nth_In; lia).
    lia.
  - cbn [nth] in Hi. cbn [Count]. specialize (IH i j ltac:(lia) Hi Hj).
    destruct (r =? c); lia.
Qed.

Lemma nth_slice (runes : text) (lo hi i : nat) :
  (lo <= i < hi)%nat -> (hi <= length runes)%nat ->
  nth (i - lo) (slice runes lo hi) 0 = runeAt runes i.
Proof.
  intros Hi Hhi. unfold slice, runeAt. rewrite nth_firstn, nth_skipn.
  replace (i - lo <? hi - lo)%nat with true by (symmetry; apply Nat.ltb_lt; lia).
  f_equal. lia.
Qed.

Lemma length_slice (runes : text) (lo hi : nat) :
  (hi <= length runes)%nat -> length (slice runes lo hi) = (hi - lo)%nat.
Proof. intros H. unfold slice. rewrite length_firstn, length_skipn. lia. Qed.

(** A line with a pipe on each side of a position is a table row for
    [detectTableLine]: in C6 the pipes alone decide. *)
Lemma pipes_make_table_row (runes : text) (pos s e i j : nat) :
  IsLineStart runes pos s ->
  IsLineEnd runes pos e ->
  (s <= i < pos)%nat -> runeAt runes i = chPipe ->
  (pos < j <= e)%nat -> runeAt runes j = chPipe ->
  tableRowHeuristic (slice runes s (S e)).
Proof.
  intros (Hs & _) ((_ & He) & _) Hi Hpi Hj Hpj.
  assert (H2 : 2 <= Count (TrimSpace (slice runes s (S e))) chPipe).
  { rewrite Count_TrimSpace by reflexivity.
    apply (Count_two _ _ (i - s) (j - s)).
    - rewrite length_slice by lia. lia.
    - rewrite nth_slice by lia. exact Hpi.
    - rewrite nth_slice by lia. exact Hpj. }
  unfold tableRowHeuristic. cbv zeta. split; [|now left].
  intros Hnil. rewrite Hnil in H2. cbn in H2. lia.
Qed.

End Classifier.

(** C4.  At a position that holds '.' or ',' with a decimal digit
    immediately before and immediately after it, [isEndOfSentence] answers
    [false]; and the tokenizer splits
    "The price is $12.50 per item. Total came to 1,234.56 dollars." after
    "item." and after "dollars." only.  ([AsciiExact] serves the example;
    [digit_sides_not_boundary] is the first part for any tables.) *)
Theorem decimal_and_thousands_not_split (U : UnicodeTables)
        (runes : text) (pos : nat) :
  AsciiExact U ->
  (0 < pos)%nat -> (pos + 1 < length runes)%nat ->
  runeAt runes pos = chDot \/ runeAt runes pos = chComma ->
  IsDigit (runeAt runes (pos - 1)) = true ->
  IsDigit (runeAt runes (pos + 1)) = true ->
  isEndOfSentence runes pos = false
  /\ TokenizeSentencesWithDelimiters priceExample defaultFragmentDelimiters
     = [str "The price is $12.50 per item.";
        str "Total came to 1,234.56 dollars."].
Proof.
  intros H Hpos Hlen Hc Hb Ha. split.
  - now apply digit_sides_not_boundary.
  - by_ascii_evaluation H.
Qed.

Lemma decimal_and_thousands_not_split_witness :
  @isEndOfSentence asciiTables priceExample 16 = false
  /\ @TokenizeSentencesWithDelimiters asciiTables priceExample
       defaultFragmentDelimiters
     = [str "The price is $12.50 per item.";
        str "Total came to 1,234.56 dollars."].
Proof.
  apply (decimal_and_thousands_not_split asciiTables priceExample 16).
  - exact asciiTables_exact.
  - vm_compute; lia.
  - vm_compute; lia.
  - left; reflexivity.
  - reflexivity.
  - reflexivity.
Defined.

Lemma period_decided_by_next_character_witness :
  @isEndOfSentence asciiTables (str "It ends. Next") 7 = true.
Proof.
  destruct (@period_decided_by_next_character asciiTables (str "It ends. Next") 7
              ltac:(vm_compute; lia) eq_refl eq_refl eq_refl eq_refl)
    as [_ Hnext].
  destruct (Hnext 9%nat) as [Hupper _].
  - vm_compute; lia.
  - reflexivity.
  - intros k Hk. assert (k = 8%nat) as -> by lia. reflexivity.
  - apply Hupper. reflexivity.
Defined.

Lemma no_delimiter_one_span_witness :
  @TokenizeSentencesWithDelimiters asciiTables (str "  no delimiter here ")
     defaultFragmentDelimiters
  = [str "no delimiter here"].
Proof.
  rewrite (@no_delimiter_one_span asciiTables (str "  no delimiter here ")
             defaultFragmentDelimiters).
  - reflexivity.
  - repeat constructor.
Defined.

(** C3, as stated, fails on white space: three spaces contain no
    delimiter, and the tokenizer returns no span for them, not the one
    (empty) trimmed text. *)
Lemma whitespace_only_no_span :
  Forall (fun r => ContainsRune defaultFragmentDelimiters r = false) (str "   ")
  /\ @TokenizeSentencesWithDelimiters asciiTables (str "   ")
       defaultFragmentDelimiters = []
  /\ @TokenizeSentencesWithDelimiters asciiTables (str "   ")
       defaultFragmentDelimiters <> [TrimSpace (str "   ")].
Proof.
  split; [repeat constructor|]. split; [reflexivity|]. vm_compute. discriminate.
Qed.

Lemma between_pipes_not_boundary_witness :
  @isEndOfSentence asciiTables (str "| a. B | c |") 3 = false.
Proof.
  apply (@between_pipes_not_boundary asciiTables (str "| a. B | c |") 3 0 11 0 7).
  - repeat split; [lia | now left |].
    intros k Hk. do 3 (destruct k as [|k]; [vm_compute; discriminate|]). lia.
  - repeat split; [vm_compute; lia | vm_compute; lia | now left |].
    intros k Hk. do 12 (destruct k as [|k]; [vm_compute; discriminate|]). lia.
  - apply detectTableLine_spec. reflexivity.
  - lia.
  - reflexivity.
  - lia.
  - reflexivity.
Defined.

(** C6, as stated, fails on a tab-separated row.  The row
    "1-2<TAB>Hi! there<TAB>3-4" is a table row for [detectTableLine] (two
    tabs); the '!' at index 6 has a tab, and a '-', before it and after it
    on the line; [isEndOfSentence] answers [true] there, the row holding no
    pipe. *)
Lemma tab_separated_row_is_split :
  IsLineStart tabSeparatedRow 6 0
  /\ IsLineEnd tabSeparatedRow 6 16
  /\ tableRowHeuristic (slice tabSeparatedRow 0 17)
  /\ runeAt tabSeparatedRow 3 = chTab /\ runeAt tabSeparatedRow 13 = chTab
  /\ runeAt tabSeparatedRow 1 = chDash /\ runeAt tabSeparatedRow 15 = chDash
  /\ ContainsRune defaultFragmentDelimiters (runeAt tabSeparatedRow 6) = true
  /\ @isEndOfSentence asciiTables tabSeparatedRow 6 = true.
Proof.
  split.
  { repeat split; [lia | now left |].
    intros k Hk. do 6 (destruct k as [|k]; [vm_compute; discriminate|]). lia. }
  split.
  { repeat split; [vm_compute; lia | vm_compute; lia | now left |].
    intros k Hk. do 17 (destruct k as [|k]; [vm_compute; discriminate|]). lia. }
  split; [apply detectTableLine_spec; reflexivity|].
  repeat split.
Qed.

(** ** The splitter *)

Section Splitter.
Context {U : UnicodeTables}.

(** *** The queue of chunks *)

Lemma setInputBuffer_twice (s : SentenceSplitter) (q q' : list text) :
  setInputBuffer (setInputBuffer s q) q' = setInputBuffer s q'.
Proof. reflexivity. Qed.

Lemma setInputBuffer_same (s : SentenceSplitter) :
  setInputBuffer s (inputBuffer s) = s.
Proof. now destruct s. Qed.

(** [processChar] reads the queue nowhere and leaves it as it is. *)
Lemma processChar_setInputBuffer (s : SentenceSplitter) (q : list text) (c : rune) :
  processChar (setInputBuffer s q) c
  = (setInputBuffer (fst (processChar s c)) q, snd (processChar s c)).
Proof.
  unfold processChar, quickYieldFires, fragmentDelimiterSet, fullDelimiterSet,
    combineSentences.
  cbn [setInputBuffer config buffer isFirstSentence wordCount
       lastDelimiterPosition inputBuffer].
  cbv zeta.
  repeat match goal with
         | |- context [if ?b then _ else _] => destruct b
         end; reflexivity.
Qed.

Lemma processChunk_setInputBuffer (s : SentenceSplitter) (q : list text) (chunk : text) :
  processChunk (setInputBuffer s q) chunk
  = (setInputBuffer (fst (processChunk s chunk)) q, snd (processChunk s chunk)).
Proof.
  revert s. induction chunk as [|c chunk IH]; intros s; [reflexivity|].
  cbn [processChunk]. destruct (c =? 0); [apply IH|].
  rewrite processChar_setInputBuffer.
  destruct (processChar s c) as [s1 sent1]. cbn [fst snd].
  rewrite IH. destruct (processChunk s1 chunk) as [s2 sent2]. reflexivity.
Qed.

Lemma processChunk_app (s : SentenceSplitter) (a b : text) :
  processChunk s (a ++ b)
  = (fst (processChunk (fst (processChunk s a)) b),
     snd (processChunk s a) ++ snd (processChunk (fst (processChunk s a)) b)).
Proof.
  revert s. induction a as [|c a IH]; intros s.
  - cbn. now destruct (processChunk s b).
  - cbn [app processChunk]. destruct (c =? 0); [apply IH|].
    destruct (processChar s c) as [s1 sent1].
    rewrite IH. destruct (processChunk s1 a) as [s2 sent2]. cbn [fst snd].
    destruct (processChunk s2 b) as [s3 sent3]. cbn [fst snd].
    now rewrite app_assoc.
Qed.

(** Draining the queue scans the concatenation of its chunks. *)
Lemma drainInput_flat (s : SentenceSplitter) (queue : list text) :
  drainInput s queue
  = (setInputBuffer (fst (processChunk s (concat queue))) [],
     snd (processChunk s (concat queue))).
Proof.
  revert s. induction queue as [|chunk queue IH]; intros s; [reflexivity|].
  cbn [drainInput concat]. rewrite processChunk_setInputBuffer, processChunk_app.
  destruct (processChunk s chunk) as [s1 sent1]. cbn [fst snd].
  rewrite IH, processChunk_setInputBuffer. cbn [fst snd].
  now rewrite setInputBuffer_twice.
Qed.

Lemma addAll_inputBuffer (s : SentenceSplitter) (chunks : list text) :
  addAll s chunks = setInputBuffer s (inputBuffer s ++ chunks).
Proof.
  unfold addAll. revert s. induction chunks as [|c chunks IH]; intros s.
  - cbn. rewrite app_nil_r. now rewrite setInputBuffer_same.
  - cbn [fold_left]. rewrite IH. unfold Add, setInputBuffer. cbn.
    now rewrite <- app_assoc.
Qed.

(** The input buffer of the scanning state is the one it had. *)
Lemma processChar_inputBuffer (s : SentenceSplitter) (c : rune) :
  inputBuffer (fst (processChar s c)) = inputBuffer s.
Proof.
  unfold processChar. cbv zeta.
  repeat match goal with
         | |- context [if ?b then _ else _] => destruct b
         end; reflexivity.
Qed.

Lemma processChunk_inputBuffer (s : SentenceSplitter) (chunk : text) :
  inputBuffer (fst (processChunk s chunk)) = inputBuffer s.
Proof.
  revert s. induction chunk as [|c chunk IH]; intros s; [reflexivity|].
  cbn [processChunk]. destruct (c =? 0); [apply IH|].
  pose proof (processChar_inputBuffer s c) as H1.
  destruct (processChar s c) as [s1 sent1]. cbn [fst] in H1.
  specialize (IH s1). destruct (processChunk s1 chunk) as [s2 sent2].
  cbn [fst] in *. congruence.
Qed.

(** [Stream] after all the [Add]s scans the concatenation of the chunks,
    from the fresh splitter. *)
Lemma StreamTagged_flat (cfg : SentenceSplitterConfig) (chunks : list text) :
  StreamTagged (addAll (NewSentenceSplitter cfg) chunks)
  = processChunk (NewSentenceSplitter cfg) (concat chunks).
Proof.
  unfold StreamTagged. rewrite addAll_inputBuffer.
  change (inputBuffer (NewSentenceSplitter cfg) ++ chunks) with chunks.
  cbn [inputBuffer setInputBuffer].
  rewrite drainInput_flat.
  rewrite (processChunk_setInputBuffer (NewSentenceSplitter cfg) chunks).
  cbn [fst snd]. rewrite setInputBuffer_twice.
  pose proof (processChunk_inputBuffer (NewSentenceSplitter cfg) (concat chunks)) as H.
  destruct (processChunk (NewSentenceSplitter cfg) (concat chunks)) as [s sent].
  cbn [fst snd] in *. f_equal.
  change [] with (inputBuffer (NewSentenceSplitter cfg)). rewrite <- H.
  apply setInputBuffer_same.
Qed.

(** *** NUL *)

Lemma processChunk_dropNUL (s : SentenceSplitter) (chunk : text) :
  processChunk s (dropNUL chunk) = processChunk s chunk.
Proof.
  revert s. induction chunk as [|c chunk IH]; intros s; [reflexivity|].
  cbn [dropNUL filter processChunk]. fold (dropNUL chunk).
  destruct (c =? 0) eqn:E; cbn [negb]; [apply IH|].
  cbn [processChunk]. rewrite E.
  destruct (processChar s c) as [s1 sent1]. now rewrite IH.
Qed.

Lemma dropNUL_concat (chunks : list text) :
  dropNUL (concat chunks) = concat (map dropNUL chunks).
Proof.
  induction chunks as [|c chunks IH]; [reflexivity|].
  cbn [concat map]. rewrite <- IH. unfold dropNUL. apply filter_app.
Qed.

(** *** Characters that are not white space *)

Lemma nonSpace_app (a b : text) : nonSpace (a ++ b) = nonSpace a ++ nonSpace b.
Proof. apply filter_app. Qed.

Lemma nonSpace_dropWhile (p : rune -> bool) (t : text) :
  (forall r, p r = true -> IsSpace r = true) ->
  nonSpace (dropWhile p t) = nonSpace t.
Proof.
  intros Hp. induction t as [|r t IH]; [reflexivity|].
  cbn [dropWhile]. destruct (p r) eqn:E; [|reflexivity].
  rewrite IH. cbn. now rewrite (Hp r E).
Qed.

Lemma nonSpace_rev (t : text) : nonSpace (rev t) = rev (nonSpace t).
Proof. apply filter_rev. Qed.

Lemma nonSpace_TrimSpace (t : text) : nonSpace (TrimSpace t) = nonSpace t.
Proof.
  unfold TrimSpace, TrimRightFunc, TrimLeftFunc.
  rewrite nonSpace_rev, nonSpace_dropWhile by trivial.
  rewrite nonSpace_rev, rev_involutive. now apply nonSpace_dropWhile.
Qed.

Lemma trimLeftCutset_spaces (r : rune) :
  ContainsRune trimLeftCutset r = true -> IsSpace r = true.
Proof.
  unfold ContainsRune, trimLeftCutset. cbn [existsb].
  rewrite !orb_true_iff, !Z.eqb_eq.
  intros [->|[->|[->|[->|H]]]]; try reflexivity. discriminate.
Qed.

Lemma nonSpace_TrimLeft (t : text) : nonSpace (TrimLeft t trimLeftCutset) = nonSpace t.
Proof. apply nonSpace_dropWhile, trimLeftCutset_spaces. Qed.

Lemma concat_appendNonEmpty (sentences : list text) (x : text) :
  concat (appendNonEmpty sentences x) = concat sentences ++ x.
Proof.
  unfold appendNonEmpty. destruct x as [|r x]; cbn [isEmpty].
  - now rewrite app_nil_r.
  - rewrite concat_app. cbn. now rewrite app_nil_r.
Qed.

Lemma nonSpace_tokenizeLoop (delims runes rest : text) (i : nat)
      (current : text) (sentences : list text) :
  nonSpace (concat (tokenizeLoop delims runes rest i current sentences))
  = nonSpace (concat sentences) ++ nonSpace current ++ nonSpace rest.
Proof.
  revert i current sentences.
  induction rest as [|r rest IH]; intros i current sentences.
  - cbn [tokenizeLoop]. rewrite concat_appendNonEmpty, nonSpace_app,
      nonSpace_TrimSpace. cbn. now rewrite app_nil_r.
  - cbn [tokenizeLoop].
    assert (E : nonSpace (current ++ [r]) ++ nonSpace rest
                = nonSpace current ++ nonSpace (r :: rest)).
    { rewrite nonSpace_app, <- app_assoc. f_equal.
      change (r :: rest) with ([r] ++ rest). now rewrite nonSpace_app. }
    destruct (negb (ContainsRune delims r)).
    + rewrite IH. now rewrite E.
    + destruct (isEndOfSentence runes i).
      * rewrite IH, concat_appendNonEmpty, nonSpace_app, nonSpace_TrimSpace.
        cbn [nonSpace filter app]. fold (nonSpace rest).
        rewrite <- app_assoc. f_equal. exact E.
      * rewrite IH. now rewrite E.
Qed.

(** The spans of a text hold its non-space characters, each once, in
    order. *)
Lemma nonSpace_Tokenize (t delims : text) :
  nonSpace (concat (TokenizeSentencesWithDelimiters t delims)) = nonSpace t.
Proof.
  unfold TokenizeSentencesWithDelimiters. destruct t as [|r t]; [reflexivity|].
  cbn [isEmpty]. now rewrite nonSpace_tokenizeLoop.
Qed.

Lemma nonSpace_space : nonSpace [chSpace] = [].
Proof. reflexivity. Qed.

Lemma nonSpace_combineLoop (m : Z) (sentences combined : list text) (temp : text) :
  nonSpace (concat (combineLoop m sentences combined temp))
  = nonSpace (concat combined) ++ nonSpace temp ++ nonSpace (concat sentences).
Proof.
  revert combined temp.
  induction sentences as [|x sentences IH]; intros combined temp.
  - cbn [combineLoop concat]. rewrite app_nil_r.
    destruct temp as [|r temp]; cbn [isEmpty negb].
    + cbn. now rewrite app_nil_r.
    + rewrite concat_app, nonSpace_app. cbn [concat].
      now rewrite app_nil_r, nonSpace_TrimSpace.
  - cbn [combineLoop concat]. rewrite nonSpace_app.
    destruct (Len x <? m).
    + rewrite IH, !nonSpace_app, nonSpace_space, app_nil_r.
      now rewrite <- !app_assoc.
    + destruct (negb (isEmpty temp)) eqn:E.
      * rewrite IH, concat_app, nonSpace_app. cbn [concat].
        rewrite app_nil_r, nonSpace_TrimSpace, nonSpace_app. cbn [nonSpace filter app].
        now rewrite <- !app_assoc.
      * destruct temp; [|discriminate].
        rewrite IH, concat_app, nonSpace_app. cbn [concat].
        rewrite app_nil_r, nonSpace_TrimSpace. cbn [nonSpace filter app].
        now rewrite <- !app_assoc.
Qed.

Lemma nonSpace_combineSentences (s : SentenceSplitter) (sentences : list text) :
  nonSpace (concat (combineSentences s sentences)) = nonSpace (concat sentences).
Proof.
  unfold combineSentences. destruct (length sentences <=? 1)%nat; [reflexivity|].
  now rewrite nonSpace_combineLoop.
Qed.

Lemma concat_removelast_last (l : list text) :
  concat (removelast l) ++ last l [] = concat l.
Proof.
  destruct l as [|x l]; [reflexivity|].
  rewrite (app_removelast_last (l := x :: l) []) at 3 by discriminate.
  rewrite concat_app. cbn. now rewrite app_nil_r.
Qed.

Lemma CleanText_none (t : text) : CleanText t 0 = t.
Proof. reflexivity. Qed.

Lemma map_snd_contextWindow (flags : CleanupFlags) (l : list text) :
  map snd (map (fun sentence => (ContextWindowPath, CleanText sentence flags)) l)
  = map (fun sentence => CleanText sentence flags) l.
Proof. rewrite map_map. reflexivity. Qed.

Lemma map_CleanText_none (l : list text) :
  map (fun sentence => CleanText sentence 0) l = l.
Proof. induction l as [|x l IH]; cbn [map]; [|rewrite IH]; reflexivity. Qed.

(** One character, cleanup off: what is sent and what stays in the buffer
    are, in this order, the non-space characters of the buffer and the
    character. *)
Lemma processChar_nonSpace (s : SentenceSplitter) (c : rune) :
  CleanupOptions (config s) = 0 ->
  nonSpace (concat (map snd (snd (processChar s c))))
    ++ nonSpace (buffer (fst (processChar s c)))
  = nonSpace (buffer s) ++ nonSpace [c].
Proof.
  intros Hflags. unfold processChar. cbv zeta. rewrite Hflags.
  set (bufferStr := TrimLeft (buffer s ++ [c]) trimLeftCutset).
  assert (Eb : nonSpace bufferStr = nonSpace (buffer s) ++ nonSpace [c]).
  { unfold bufferStr. now rewrite nonSpace_TrimLeft, nonSpace_app. }
  destruct (quickYieldFires s bufferStr c).
  { cbn [fst snd map concat buffer]. now rewrite !app_nil_r. }
  destruct (Len bufferStr <=? _).
  { cbn [fst snd map concat buffer]. exact Eb. }
  match goal with |- context [if ?b then _ else _] => destruct b end.
  - cbn [fst snd buffer]. rewrite map_snd_contextWindow, map_CleanText_none.
    rewrite nonSpace_app, app_assoc, <- nonSpace_app, concat_removelast_last.
    rewrite nonSpace_combineSentences, nonSpace_Tokenize, <- Eb.
    destruct (HasSuffix bufferStr [chSpace]); cbn; now rewrite app_nil_r.
  - cbn [fst snd map concat buffer]. exact Eb.
Qed.

Lemma processChar_config (s : SentenceSplitter) (c : rune) :
  config (fst (processChar s c)) = config s.
Proof.
  unfold processChar. cbv zeta.
  repeat match goal with
         | |- context [if ?b then _ else _] => destruct b
         end; reflexivity.
Qed.

Lemma processChunk_config (s : SentenceSplitter) (chunk : text) :
  config (fst (processChunk s chunk)) = config s.
Proof.
  revert s. induction chunk as [|c chunk IH]; intros s; [reflexivity|].
  cbn [processChunk]. destruct (c =? 0); [apply IH|].
  pose proof (processChar_config s c) as H1.
  destruct (processChar s c) as [s1 sent1]. cbn [fst] in H1.
  specialize (IH s1). destruct (processChunk s1 chunk) as [s2 sent2].
  cbn [fst] in *. congruence.
Qed.

Lemma processChunk_nonSpace (s : SentenceSplitter) (chunk : text) :
  CleanupOptions (config s) = 0 ->
  nonSpace (concat (map snd (snd (processChunk s chunk))))
    ++ nonSpace (buffer (fst (processChunk s chunk)))
  = nonSpace (buffer s) ++ nonSpace (dropNUL chunk).
Proof.
  revert s. induction chunk as [|c chunk IH]; intros s Hflags.
  - cbn. now rewrite app_nil_r.
  - cbn [processChunk dropNUL filter]. fold (dropNUL chunk).
    destruct (c =? 0); cbn [negb]; [now apply IH|].
    pose proof (processChar_nonSpace s c Hflags) as H1.
    pose proof (processChar_config s c) as Hc.
    destruct (processChar s c) as [s1 sent1]. cbn [fst snd] in *.
    assert (Hflags1 : CleanupOptions (config s1) = 0) by congruence.
    specialize (IH s1 Hflags1).
    destruct (processChunk s1 chunk) as [s2 sent2]. cbn [fst snd] in *.
    rewrite map_app, concat_app, nonSpace_app, <- app_assoc, IH.
    rewrite app_assoc, H1, <- app_assoc. f_equal.
    change (c :: dropNUL chunk) with ([c] ++ dropNUL chunk).
    now rewrite nonSpace_app.
Qed.

Lemma nonSpace_flushLoop (m : Z) (sentences : list text) (sentenceBuffer : text) :
  nonSpace (concat (flushLoop m 0 sentences sentenceBuffer))
  = nonSpace sentenceBuffer ++ nonSpace (concat sentences).
Proof.
  revert sentenceBuffer.
  induction sentences as [|x sentences IH]; intros sentenceBuffer.
  - cbn [flushLoop concat]. rewrite app_nil_r.
    destruct sentenceBuffer; cbn [isEmpty negb]; [reflexivity|].
    cbn [concat]. now rewrite CleanText_none, app_nil_r.
  - cbn [flushLoop concat]. destruct (Len (sentenceBuffer ++ x) <? m).
    + rewrite IH, !nonSpace_app, nonSpace_space, app_nil_r.
      now rewrite <- app_assoc.
    + cbn [concat]. rewrite CleanText_none, nonSpace_app, IH. cbn [nonSpace filter app].
      now rewrite !nonSpace_app, <- app_assoc.
Qed.

Lemma Flush_nonSpace (s : SentenceSplitter) :
  CleanupOptions (config s) = 0 ->
  nonSpace (concat (Flush s)) = nonSpace (buffer s).
Proof.
  intros Hflags. unfold Flush. rewrite Hflags.
  destruct (0 <? Len (buffer s)) eqn:E.
  - rewrite nonSpace_flushLoop, nonSpace_Tokenize. reflexivity.
  - apply Z.ltb_ge in E. now rewrite (Len_zero _ E).
Qed.

(** *** Cleanup only rewrites what is sent *)

Lemma map_cleanTagged_contextWindow (flags : CleanupFlags) (l : list text) :
  map (cleanTagged flags)
      (map (fun sentence => (ContextWindowPath, CleanText sentence 0)) l)
  = map (fun sentence => (ContextWindowPath, CleanText sentence flags)) l.
Proof. rewrite map_map. apply map_ext. intros x. reflexivity. Qed.

(** The scan takes the same branches whatever the cleanup options are:
    they only change the strings sent. *)
Lemma processChar_uncleaned (s : SentenceSplitter) (c : rune) :
  fst (processChar (uncleanedSplitter s) c) = uncleanedSplitter (fst (processChar s c))
  /\ snd (processChar s c)
     = map (cleanTagged (CleanupOptions (config s)))
           (snd (processChar (uncleanedSplitter s) c)).
Proof.
  unfold processChar, quickYieldFires, fragmentDelimiterSet, fullDelimiterSet,
    combineSentences, uncleanedSplitter, uncleaned, withCleanupOptions.
  cbn [config buffer isFirstSentence wordCount lastDelimiterPosition inputBuffer
       ContextSize MinimumSentenceLength MinimumFirstFragmentLength YieldMode
       CleanupOptions SentenceFragmentDelimiters FullSentenceDelimiters].
  cbv zeta.
  repeat match goal with
         | |- context [if ?b then _ else _] => destruct b
         end;
    cbn [fst snd map]; (split; [reflexivity|]);
    try reflexivity; now rewrite map_cleanTagged_contextWindow.
Qed.

Lemma processChunk_uncleaned (s : SentenceSplitter) (chunk : text) :
  fst (processChunk (uncleanedSplitter s) chunk)
  = uncleanedSplitter (fst (processChunk s chunk))
  /\ snd (processChunk s chunk)
     = map (cleanTagged (CleanupOptions (config s)))
           (snd (processChunk (uncleanedSplitter s) chunk)).
Proof.
  revert s. induction chunk as [|c chunk IH]; intros s; [now split|].
  cbn [processChunk]. destruct (c =? 0); [apply IH|].
  destruct (processChar_uncleaned s c) as [Hs Hsent].
  pose proof (processChar_config s c) as Hc.
  destruct (processChar s c) as [s1 sent1].
  destruct (processChar (uncleanedSplitter s) c) as [r1 raw1].
  cbn [fst snd] in *. subst r1 sent1.
  destruct (IH s1) as [Hs2 Hsent2].
  destruct (processChunk s1 chunk) as [s2 sent2].
  destruct (processChunk (uncleanedSplitter s1) chunk) as [r2 raw2].
  cbn [fst snd] in *. split; [exact Hs2|].
  rewrite map_app, Hsent2, Hc. reflexivity.
Qed.

Lemma flushLoop_uncleaned (m : Z) (flags : CleanupFlags) (sentences : list text)
      (sentenceBuffer : text) :
  flushLoop m flags sentences sentenceBuffer
  = map (fun unit => CleanText unit flags) (flushLoop m 0 sentences sentenceBuffer).
Proof.
  revert sentenceBuffer.
  induction sentences as [|x sentences IH]; intros sentenceBuffer.
  - cbn [flushLoop]. now destruct (negb (isEmpty sentenceBuffer)).
  - cbn [flushLoop]. destruct (Len (sentenceBuffer ++ x) <? m); [apply IH|].
    cbn [map]. now rewrite IH, CleanText_none.
Qed.

Lemma Flush_uncleaned (s : SentenceSplitter) :
  Flush s = map (fun unit => CleanText unit (CleanupOptions (config s)))
                (Flush (uncleanedSplitter s)).
Proof.
  unfold Flush. cbn [uncleanedSplitter uncleaned withCleanupOptions config buffer
                     MinimumSentenceLength CleanupOptions SentenceFragmentDelimiters].
  destruct (0 <? Len (buffer s)); [apply flushLoop_uncleaned | reflexivity].
Qed.

Lemma streamThenFlush_flat (cfg : SentenceSplitterConfig) (chunks : list text) :
  streamThenFlush cfg chunks
  = map snd (snd (processChunk (NewSentenceSplitter cfg) (concat chunks)))
    ++ Flush (fst (processChunk (NewSentenceSplitter cfg) (concat chunks))).
Proof.
  unfold streamThenFlush, Stream. rewrite StreamTagged_flat.
  now destruct (processChunk (NewSentenceSplitter cfg) (concat chunks)).
Qed.

Lemma streamThenFlush_uncleaned (cfg : SentenceSplitterConfig) (chunks : list text) :
  streamThenFlush cfg chunks
  = map (fun unit => CleanText unit (CleanupOptions cfg))
        (streamThenFlush (uncleaned cfg) chunks).
Proof.
  rewrite !streamThenFlush_flat.
  change (NewSentenceSplitter (uncleaned cfg))
    with (uncleanedSplitter (NewSentenceSplitter cfg)).
  destruct (processChunk_uncleaned (NewSentenceSplitter cfg) (concat chunks))
    as [Hs Hsent].
  pose proof (processChunk_config (NewSentenceSplitter cfg) (concat chunks)) as Hc.
  destruct (processChunk (NewSentenceSplitter cfg) (concat chunks)) as [s sent].
  destruct (processChunk (uncleanedSplitter (NewSentenceSplitter cfg)) (concat chunks))
    as [r raw].
  cbn [fst snd] in *. subst r sent. cbn [NewSentenceSplitter config] in Hc.
  rewrite map_app, Flush_uncleaned, Hc. f_equal.
  rewrite !map_map. apply map_ext. intros e. reflexivity.
Qed.

Lemma streamThenFlush_nonSpace (cfg : SentenceSplitterConfig) (chunks : list text) :
  CleanupOptions cfg = 0 ->
  nonSpace (concat (streamThenFlush cfg chunks)) = nonSpace (dropNUL (concat chunks)).
Proof.
  intros Hflags. rewrite streamThenFlush_flat.
  pose proof (processChunk_nonSpace (NewSentenceSplitter cfg) (concat chunks) Hflags)
    as Hn.
  pose proof (processChunk_config (NewSentenceSplitter cfg) (concat chunks)) as Hc.
  destruct (processChunk (NewSentenceSplitter cfg) (concat chunks)) as [s sent].
  cbn [fst snd] in *.
  rewrite concat_app, nonSpace_app, Flush_nonSpace, Hn; [reflexivity|].
  rewrite Hc. exact Hflags.
Qed.


(** *** A property of every character carries over to what is sent

    Nothing writes a character that was not read, but for the space and
    the newline that joining puts between pieces. *)

Section CharacterInvariant.
Variable P : rune -> Prop.
Hypothesis P_space : P chSpace.
Hypothesis P_newline : P chNL.

Lemma Forall_dropWhile (p : rune -> bool) (t : text) :
  Forall P t -> Forall P (dropWhile p t).
Proof.
  induction t as [|r t IH]; intros H; [constructor|].
  cbn [dropWhile]. destruct (p r); [|exact H].
  inversion H; subst. now apply IH.
Qed.

Lemma Forall_TrimSpace (t : text) : Forall P t -> Forall P (TrimSpace t).
Proof.
  intros H. unfold TrimSpace, TrimRightFunc, TrimLeftFunc.
  now apply Forall_rev, Forall_dropWhile, Forall_rev, Forall_dropWhile.
Qed.

Lemma Forall_Split (t : text) (sep : rune) :
  Forall P t -> Forall (Forall P) (Split t sep).
Proof.
  induction t as [|r t IH]; intros H; [repeat constructor|].
  inversion H as [|? ? Hr Ht]; subst. specialize (IH Ht).
  cbn [Split]. destruct (r =? sep); [now repeat constructor|].
  destruct (Split t sep) as [|piece pieces]; [now repeat constructor|].
  inversion IH; subst. constructor; [now constructor | assumption].
Qed.

Lemma Forall_Join (parts : list text) (sep : text) :
  Forall (Forall P) parts -> Forall P sep -> Forall P (Join parts sep).
Proof.
  intros Hparts Hsep. induction parts as [|p parts IH]; [constructor|].
  inversion Hparts; subst. cbn [Join]. destruct parts as [|p' parts]; [assumption|].
  rewrite !Forall_app. auto.
Qed.

Lemma Forall_keep {A} (Q : A -> Prop) (f : A -> bool) (l : list A) :
  Forall Q l -> Forall Q (filter f l).
Proof.
  intros H. rewrite Forall_forall in *. intros x Hx.
  apply filter_In in Hx. now apply H.
Qed.

Lemma Forall_normalizeLines (lines : list text) (n : Z) :
  Forall (Forall P) lines -> Forall (Forall P) (normalizeLines lines n).
Proof.
  revert n. induction lines as [|line lines IH]; intros n H; [constructor|].
  inversion H; subst. cbn [normalizeLines].
  destruct (isEmpty (TrimSpace line)).
  - cbv zeta. destruct (n + 1 <=? 1); [constructor|]; auto.
  - constructor; auto.
Qed.

Lemma Forall_stripTableLines (lines cleaned : list text) :
  Forall (Forall P) lines -> Forall (Forall P) cleaned ->
  Forall (Forall P) (stripTableLines lines cleaned).
Proof.
  revert cleaned. induction lines as [|line lines IH]; intros cleaned H Hc;
    [assumption|].
  inversion H; subst. cbn [stripTableLines].
  destruct (detectTableLine line).
  - destruct ((0 <? length cleaned)%nat && negb (isEmpty (last cleaned []))).
    + apply IH; [assumption|]. rewrite Forall_app. split; [assumption|].
      repeat constructor.
    + now apply IH.
  - apply IH; [assumption|]. rewrite Forall_app. split; [assumption|].
    now repeat constructor.
Qed.

Lemma Forall_CleanText (t : text) (flags : CleanupFlags) :
  Forall P t -> Forall P (CleanText t flags).
Proof.
  intros H. unfold CleanText. cbv zeta.
  set (t1 := if HasFlag flags CleanupTable then _ else _).
  assert (H1 : Forall P t1).
  { unfold t1. destruct (HasFlag flags CleanupTable); [|assumption].
    unfold stripTableStructures, normalizeNewlines.
    apply Forall_Join; [|now repeat constructor].
    apply Forall_normalizeLines, Forall_Split.
    apply Forall_Join; [|now repeat constructor].
    apply Forall_stripTableLines; [now apply Forall_Split | constructor]. }
  clearbody t1.
  set (t2 := if HasFlag flags CleanupLinks then _ else _).
  assert (H2 : Forall P t2).
  { unfold t2. destruct (HasFlag flags CleanupLinks); [|assumption].
    unfold stripHTTPURLs. cbv zeta.
    apply Forall_Join; [|now repeat constructor].
    now apply Forall_keep, Forall_Split. }
  clearbody t2.
  set (t3 := if HasFlag flags CleanupEmojis then _ else _).
  assert (H3 : Forall P t3).
  { unfold t3. destruct (HasFlag flags CleanupEmojis); [|assumption].
    now apply Forall_keep. }
  clearbody t3.
  destruct (HasFlag flags StripText); [now apply Forall_TrimSpace | assumption].
Qed.

Lemma Forall_appendNonEmpty (sentences : list text) (x : text) :
  Forall (Forall P) sentences -> Forall P x ->
  Forall (Forall P) (appendNonEmpty sentences x).
Proof.
  intros Hs Hx. unfold appendNonEmpty. destruct (isEmpty x); [assumption|].
  rewrite Forall_app. split; [assumption | now repeat constructor].
Qed.

Lemma Forall_tokenizeLoop (delims runes rest : text) (i : nat) (current : text)
      (sentences : list text) :
  Forall P rest -> Forall P current -> Forall (Forall P) sentences ->
  Forall (Forall P) (tokenizeLoop delims runes rest i current sentences).
Proof.
  revert i current sentences.
  induction rest as [|r rest IH]; intros i current sentences Hr Hc Hs.
  - cbn [tokenizeLoop]. now apply Forall_appendNonEmpty, Forall_TrimSpace.
  - inversion Hr; subst. cbn [tokenizeLoop].
    assert (Hc' : Forall P (current ++ [r])).
    { rewrite Forall_app. split; [assumption | now repeat constructor]. }
    destruct (negb (ContainsRune delims r)); [now apply IH|].
    destruct (isEndOfSentence runes i); [|now apply IH].
    apply IH; [assumption | constructor |].
    now apply Forall_appendNonEmpty, Forall_TrimSpace.
Qed.

Lemma Forall_Tokenize (t delims : text) :
  Forall P t -> Forall (Forall P) (TokenizeSentencesWithDelimiters t delims).
Proof.
  intros H. unfold TokenizeSentencesWithDelimiters.
  destruct (isEmpty t); [constructor|].
  apply Forall_tokenizeLoop; [assumption | constructor | constructor].
Qed.

Lemma Forall_combineLoop (m : Z) (sentences combined : list text) (temp : text) :
  Forall (Forall P) sentences -> Forall (Forall P) combined -> Forall P temp ->
  Forall (Forall P) (combineLoop m sentences combined temp).
Proof.
  revert combined temp.
  induction sentences as [|x sentences IH]; intros combined temp Hs Hc Ht.
  - cbn [combineLoop]. destruct (negb (isEmpty temp)); [|assumption].
    rewrite Forall_app. split; [assumption|].
    repeat constructor. now apply Forall_TrimSpace.
  - inversion Hs; subst. cbn [combineLoop]. destruct (Len x <? m).
    + apply IH; [assumption | assumption |].
      rewrite !Forall_app. repeat split; [assumption | assumption |].
      now repeat constructor.
    + destruct (negb (isEmpty temp)).
      * apply IH; [assumption | | constructor].
        rewrite Forall_app. split; [assumption|]. repeat constructor.
        apply Forall_TrimSpace. rewrite Forall_app. now split.
      * apply IH; [assumption | | constructor].
        rewrite Forall_app. split; [assumption|]. repeat constructor.
        now apply Forall_TrimSpace.
Qed.

Lemma Forall_combineSentences (s : SentenceSplitter) (sentences : list text) :
  Forall (Forall P) sentences -> Forall (Forall P) (combineSentences s sentences).
Proof.
  intros H. unfold combineSentences. destruct (length sentences <=? 1)%nat;
    [assumption|].
  apply Forall_combineLoop; [assumption | constructor | constructor].
Qed.

Lemma Forall_removelast' {A} (Q : A -> Prop) (l : list A) :
  Forall Q l -> Forall Q (removelast l).
Proof.
  induction l as [|x l IH]; intros H; [constructor|].
  inversion H; subst. cbn [removelast]. destruct l; [constructor|].
  constructor; auto.
Qed.

Lemma Forall_last' {A} (Q : A -> Prop) (l : list A) (d : A) :
  Forall Q l -> Q d -> Q (last l d).
Proof.
  induction l as [|x l IH]; intros H Hd; [assumption|].
  inversion H; subst. cbn [last]. destruct l; [assumption|]. now apply IH.
Qed.

Lemma Forall_processChar (s : SentenceSplitter) (c : rune) :
  Forall P (buffer s) -> P c ->
  Forall P (buffer (fst (processChar s c)))
  /\ Forall (Forall P) (map snd (snd (processChar s c))).
Proof.
  intros Hb Hc. unfold processChar. cbv zeta.
  set (bufferStr := TrimLeft (buffer s ++ [c]) trimLeftCutset).
  assert (Hs : Forall P bufferStr).
  { unfold bufferStr, TrimLeft. apply Forall_dropWhile. rewrite Forall_app.
    split; [assumption | now repeat constructor]. }
  destruct (quickYieldFires s bufferStr c).
  { cbn [fst snd map buffer]. split; [constructor|].
    repeat constructor. now apply Forall_CleanText. }
  destruct (Len bufferStr <=? _).
  { cbn [fst snd map buffer]. split; [assumption | constructor]. }
  set (sentences := combineSentences s _).
  assert (Hsent : Forall (Forall P) sentences).
  { unfold sentences. now apply Forall_combineSentences, Forall_Tokenize. }
  match goal with |- context [if ?b then _ else _] => destruct b end.
  - cbn [fst snd buffer]. split.
    + rewrite Forall_app. split; [apply Forall_last'; [assumption | constructor]|].
      destruct (HasSuffix bufferStr [chSpace]); now repeat constructor.
    + rewrite map_snd_contextWindow. apply Forall_map.
      apply Forall_removelast' in Hsent. revert Hsent. apply Forall_impl.
      intros x Hx. now apply Forall_CleanText.
  - cbn [fst snd map buffer]. split; [assumption | constructor].
Qed.

Lemma Forall_flushLoop (m : Z) (flags : CleanupFlags) (sentences : list text)
      (sentenceBuffer : text) :
  Forall (Forall P) sentences -> Forall P sentenceBuffer ->
  Forall (Forall P) (flushLoop m flags sentences sentenceBuffer).
Proof.
  revert sentenceBuffer.
  induction sentences as [|x sentences IH]; intros sentenceBuffer Hs Hb.
  - cbn [flushLoop]. destruct (negb (isEmpty sentenceBuffer)); [|constructor].
    repeat constructor. now apply Forall_CleanText.
  - inversion Hs; subst. cbn [flushLoop].
    assert (Hb' : Forall P (sentenceBuffer ++ x)).
    { rewrite Forall_app. now split. }
    destruct (Len (sentenceBuffer ++ x) <? m).
    + apply IH; [assumption|]. rewrite Forall_app. split; [assumption|].
      now repeat constructor.
    + constructor; [now apply Forall_CleanText|]. apply IH; [assumption | constructor].
Qed.

Lemma Forall_Flush (s : SentenceSplitter) :
  Forall P (buffer s) -> Forall (Forall P) (Flush s).
Proof.
  intros H. unfold Flush. destruct (0 <? Len (buffer s)); [|constructor].
  apply Forall_flushLoop; [now apply Forall_Tokenize | constructor].
Qed.

End CharacterInvariant.

(** Scanning a chunk keeps NUL out of the buffer and out of what is
    sent. *)
Lemma processChunk_NoNUL (s : SentenceSplitter) (chunk : text) :
  NoNUL (buffer s) ->
  NoNUL (buffer (fst (processChunk s chunk)))
  /\ Forall NoNUL (map snd (snd (processChunk s chunk))).
Proof.
  revert s. induction chunk as [|c chunk IH]; intros s Hb.
  - cbn. split; [assumption | constructor].
  - cbn [processChunk]. destruct (c =? 0) eqn:E; [now apply IH|].
    apply Z.eqb_neq in E.
    destruct (Forall_processChar (fun r => r <> 0) ltac:(discriminate)
                ltac:(discriminate) s c Hb E) as [Hb1 Hs1].
    destruct (processChar s c) as [s1 sent1]. cbn [fst snd] in *.
    destruct (IH s1 Hb1) as [Hb2 Hs2].
    destruct (processChunk s1 chunk) as [s2 sent2]. cbn [fst snd] in *.
    split; [assumption|]. rewrite map_app. apply Forall_app. now split.
Qed.

Lemma StreamTagged_addAll (s : SentenceSplitter) (chunks : list text) :
  StreamTagged (addAll s chunks)
  = (setInputBuffer (fst (processChunk s (concat (inputBuffer s ++ chunks)))) [],
     snd (processChunk s (concat (inputBuffer s ++ chunks)))).
Proof.
  unfold StreamTagged. rewrite addAll_inputBuffer. cbn [inputBuffer setInputBuffer].
  rewrite drainInput_flat, processChunk_setInputBuffer. cbn [fst snd].
  now rewrite setInputBuffer_twice.
Qed.

Lemma processChunk_concat_dropNUL (s : SentenceSplitter) (chunks : list text) :
  processChunk s (concat (map dropNUL chunks)) = processChunk s (concat chunks).
Proof. now rewrite <- dropNUL_concat, processChunk_dropNUL. Qed.

(** C10.  [Stream] is blind to NUL: after any [Add]s, the splitter it
    leaves and the strings it sends are those for the chunks with their NUL
    characters removed, so no length test and no boundary decision sees a
    NUL; and from a fresh splitter NUL is neither in the buffer nor in any
    string sent by [Stream] or [Flush]. *)
Theorem nul_is_discarded (s : SentenceSplitter) (cfg : SentenceSplitterConfig)
        (chunks : list text) :
  Stream (addAll s chunks) = Stream (addAll s (map dropNUL chunks))
  /\ streamThenFlush cfg chunks = streamThenFlush cfg (map dropNUL chunks)
  /\ NoNUL (buffer (fst (Stream (addAll (NewSentenceSplitter cfg) chunks))))
  /\ Forall NoNUL (streamThenFlush cfg chunks).
Proof.
  assert (E : forall s0, Stream (addAll s0 chunks)
                         = Stream (addAll s0 (map dropNUL chunks))).
  { intros s0. unfold Stream. rewrite !StreamTagged_addAll.
    rewrite !concat_app, !processChunk_app, processChunk_concat_dropNUL.
    reflexivity. }
  split; [apply E|]. split.
  { unfold streamThenFlush. now rewrite E. }
  destruct (processChunk_NoNUL (NewSentenceSplitter cfg) (concat chunks))
    as [Hb Hs]; [constructor|].
  split.
  - unfold Stream. rewrite StreamTagged_flat.
    now destruct (processChunk (NewSentenceSplitter cfg) (concat chunks)).
  - rewrite streamThenFlush_flat. apply Forall_app. split; [exact Hs|].
    apply Forall_Flush; [discriminate | discriminate | exact Hb].
Qed.

(** *** Quick yield *)

Lemma processChar_quick (s : SentenceSplitter) (c : rune) :
  quickYieldFires s (scannedBuffer s c) c = true ->
  snd (processChar s c)
  = [(QuickYieldPath, CleanText (scannedBuffer s c) (CleanupOptions (config s)))]
  /\ isFirstSentence (fst (processChar s c)) = false.
Proof.
  intros H. unfold processChar. cbv zeta. fold (scannedBuffer s c).
  rewrite H. now split.
Qed.

Lemma Forall_fromContextWindow (flags : CleanupFlags) (l : list text) :
  Forall fromContextWindow
         (map (fun sentence => (ContextWindowPath, CleanText sentence flags)) l).
Proof. apply Forall_map. apply Forall_forall. intros x _. reflexivity. Qed.

Lemma processChar_no_quick (s : SentenceSplitter) (c : rune) :
  quickYieldFires s (scannedBuffer s c) c = false ->
  Forall fromContextWindow (snd (processChar s c))
  /\ (isAllFragments (YieldMode (config s)) = false ->
      isFirstSentence (fst (processChar s c)) = isFirstSentence s).
Proof.
  intros H. unfold processChar. cbv zeta. fold (scannedBuffer s c).
  rewrite H. destruct (Len (scannedBuffer s c) <=? _).
  { cbn [fst snd isFirstSentence]. split; [constructor | reflexivity]. }
  match goal with |- context [if ?b then _ else _] => destruct b end.
  - cbn [fst snd isFirstSentence]. split; [apply Forall_fromContextWindow|].
    now intros ->.
  - cbn [fst snd isFirstSentence]. split; [constructor | reflexivity].
Qed.

Lemma quickYieldFires_isFirst (s : SentenceSplitter) (b : text) (c : rune) :
  quickYieldFires s b c = true ->
  isFirstSentence s = true
  /\ MinimumFirstFragmentLength (config s) < Len b
  /\ ContainsRune (SentenceFragmentDelimiters (config s)) c = true.
Proof.
  unfold quickYieldFires, fragmentDelimiterSet.
  rewrite !andb_true_iff, Z.ltb_lt. tauto.
Qed.

(** In first-fragment mode, once [isFirstSentence] is off it stays off and
    everything sent comes from the context-window branch. *)
Lemma after_quick_yield (s : SentenceSplitter) (chunk : text) :
  YieldMode (config s) = QuickYieldFirstFragment ->
  isFirstSentence s = false ->
  Forall fromContextWindow (snd (processChunk s chunk))
  /\ isFirstSentence (fst (processChunk s chunk)) = false.
Proof.
  revert s. induction chunk as [|c chunk IH]; intros s Hmode Hflag.
  - cbn. split; [constructor | assumption].
  - cbn [processChunk]. destruct (c =? 0); [now apply IH|].
    assert (Hq : quickYieldFires s (scannedBuffer s c) c = false).
    { unfold quickYieldFires. now rewrite Hflag. }
    destruct (processChar_no_quick s c Hq) as [Hcw Hkeep].
    pose proof (processChar_config s c) as Hc.
    rewrite Hmode in Hkeep. specialize (Hkeep eq_refl).
    destruct (processChar s c) as [s1 sent1]. cbn [fst snd] in *.
    destruct (IH s1) as [Hcw2 Hflag2]; [congruence | congruence |].
    destruct (processChunk s1 chunk) as [s2 sent2]. cbn [fst snd] in *.
    split; [|assumption]. apply Forall_app. now split.
Qed.

(** Where a list that starts with entries of the context-window branch
    holds its first quick yield. *)
Lemma split_after_context_window (l1 l2 before after : list (yieldPath * text))
      (unit : text) :
  l1 ++ l2 = before ++ (QuickYieldPath, unit) :: after ->
  Forall fromContextWindow l1 ->
  exists before', before = l1 ++ before'
                  /\ l2 = before' ++ (QuickYieldPath, unit) :: after.
Proof.
  revert before. induction l1 as [|e l1 IH]; intros before E H.
  - exists before. now split.
  - inversion H as [|? ? He Hl1]; subst. destruct before as [|e' before].
    + cbn in E. injection E as -> _. discriminate He.
    + cbn in E. injection E as <- E. destruct (IH before E Hl1) as (b' & -> & ->).
      exists b'. now split.
Qed.

Lemma scannedBuffer_ends (s : SentenceSplitter) (c : rune) :
  scannedBuffer s c = [] \/ exists front, scannedBuffer s c = front ++ [c].
Proof.
  unfold scannedBuffer, TrimLeft. generalize (buffer s) as b.
  induction b as [|r b IH]; cbn [app dropWhile].
  - destruct (ContainsRune trimLeftCutset c); [now left | right; now exists []].
  - destruct (ContainsRune trimLeftCutset r); [exact IH|].
    right. now exists (r :: b).
Qed.

(** The shape of what a scan sends in first-fragment mode when it holds a
    quick yield. *)
Lemma quick_yield_shape (chunk : text) :
  forall (s : SentenceSplitter) (before after : list (yieldPath * text)) (unit : text),
  YieldMode (config s) = QuickYieldFirstFragment ->
  snd (processChunk s chunk) = before ++ (QuickYieldPath, unit) :: after ->
  Forall fromContextWindow before
  /\ Forall fromContextWindow after
  /\ exists pre c post,
       chunk = pre ++ c :: post /\ c <> 0
       /\ snd (processChunk s pre) = before
       /\ quickYieldFires (fst (processChunk s pre))
            (scannedBuffer (fst (processChunk s pre)) c) c = true
       /\ unit = CleanText (scannedBuffer (fst (processChunk s pre)) c)
                           (CleanupOptions (config s))
       /\ (forall pre1 d pre2, pre = pre1 ++ d :: pre2 -> d <> 0 ->
             quickYieldFires (fst (processChunk s pre1))
               (scannedBuffer (fst (processChunk s pre1)) d) d = false).
Proof.
  induction chunk as [|c chunk IH]; intros s before after unit Hmode E.
  - cbn in E. now destruct before.
  - cbn [processChunk] in E. destruct (c =? 0) eqn:Ec.
    + destruct (IH s before after unit Hmode E)
        as (Hb & Ha & pre & c' & post & -> & Hc' & Hpre & Hq & Hu & Hfirst).
      split; [assumption|]. split; [assumption|].
      exists (c :: pre), c', post. cbn [app processChunk]. rewrite Ec.
      repeat split; try assumption.
      intros pre1 d pre2 Hp Hd. destruct pre1 as [|x pre1].
      * cbn in Hp. injection Hp as -> _. apply Z.eqb_eq in Ec. contradiction.
      * cbn in Hp. injection Hp as -> ->. cbn [processChunk]. rewrite Ec.
        now apply (Hfirst pre1 d pre2).
    + apply Z.eqb_neq in Ec.
      destruct (quickYieldFires s (scannedBuffer s c) c) eqn:Hq.
      * destruct (processChar_quick s c Hq) as [Hsent Hflag].
        pose proof (processChar_config s c) as Hcfg.
        destruct (processChar s c) as [s1 sent1]. cbn [fst snd] in *.
        destruct (after_quick_yield s1 chunk) as [Hcw _];
          [congruence | assumption |].
        destruct (processChunk s1 chunk) as [s2 sent2]. cbn [fst snd] in *.
        subst sent1. destruct before as [|e before].
        -- cbn in E. injection E as <- <-.
           split; [constructor|]. split; [assumption|].
           exists [], c, chunk. cbn [app processChunk fst snd].
           repeat split; try assumption.
           intros pre1 d pre2 Hp. now destruct pre1.
        -- exfalso. cbn in E. injection E as <- E.
           rewrite E in Hcw. apply Forall_app in Hcw. destruct Hcw as [_ Hcw].
           inversion Hcw as [|? ? Hbad _]. discriminate Hbad.
      * destruct (processChar_no_quick s c Hq) as [Hcw Hkeep].
        pose proof (processChar_config s c) as Hcfg.
        remember (processChar s c) as r eqn:Er. destruct r as [s1 sent1].
        cbn [fst snd] in *.
        remember (processChunk s1 chunk) as r2 eqn:Er2. destruct r2 as [s2 sent2].
        cbn [snd] in E.
        destruct (split_after_context_window _ _ _ _ _ E Hcw) as (b' & -> & E2).
        assert (E3 : snd (processChunk s1 chunk)
                     = b' ++ (QuickYieldPath, unit) :: after)
          by (now rewrite <- Er2).
        destruct (IH s1 b' after unit ltac:(congruence) E3)
          as (Hb & Ha & pre & c' & post & -> & Hc' & Hpre & Hq' & Hu & Hfirst).
        split; [apply Forall_app; now split|]. split; [assumption|].
        exists (c :: pre), c', post. cbn [app processChunk].
        apply Z.eqb_neq in Ec. rewrite Ec. rewrite <- Er.
        destruct (processChunk s1 pre) as [s3 sent3] eqn:E4. cbn [fst snd] in *.
        repeat split; try assumption.
        -- now rewrite Hpre.
        -- now rewrite <- Hcfg.
        -- intros pre1 d pre2 Hp Hd. destruct pre1 as [|x pre1].
           ++ cbn in Hp. injection Hp as -> _. cbn [processChunk fst]. exact Hq.
           ++ cbn in Hp. injection Hp as -> ->. cbn [processChunk]. rewrite Ec.
              rewrite <- Er.
              specialize (Hfirst pre1 d pre2 eq_refl Hd).
              destruct (processChunk s1 pre1). exact Hfirst.
Qed.

(** In first-fragment mode [isFirstSentence] stays on as long as nothing
    was sent by the quick yield. *)
Lemma before_quick_yield (s : SentenceSplitter) (chunk : text) :
  YieldMode (config s) = QuickYieldFirstFragment ->
  isFirstSentence s = true ->
  Forall fromContextWindow (snd (processChunk s chunk)) ->
  isFirstSentence (fst (processChunk s chunk)) = true.
Proof.
  revert s. induction chunk as [|c chunk IH]; intros s Hmode Hflag Hcw;
    [assumption|].
  cbn [processChunk] in *. destruct (c =? 0); [now apply IH|].
  pose proof (processChar_config s c) as Hcfg.
  destruct (quickYieldFires s (scannedBuffer s c) c) eqn:Hq.
  - exfalso. destruct (processChar_quick s c Hq) as [Hsent _].
    destruct (processChar s c) as [s1 sent1]. cbn [fst snd] in *.
    destruct (processChunk s1 chunk) as [s2 sent2]. cbn [snd] in Hcw.
    subst sent1. inversion Hcw as [|? ? Hbad _]. discriminate Hbad.
  - destruct (processChar_no_quick s c Hq) as [_ Hkeep].
    rewrite Hmode in Hkeep. specialize (Hkeep eq_refl).
    destruct (processChar s c) as [s1 sent1]. cbn [fst snd] in *.
    specialize (IH s1).
    destruct (processChunk s1 chunk) as [s2 sent2]. cbn [fst snd] in *.
    apply Forall_app in Hcw. destruct Hcw as [_ Hcw].
    apply IH; congruence.
Qed.

Lemma context_window_or_quick_yield (l : list (yieldPath * text)) :
  Forall fromContextWindow l
  \/ exists before unit after, l = before ++ (QuickYieldPath, unit) :: after.
Proof.
  induction l as [|[[|] u] l IH].
  - left. constructor.
  - right. now exists [], u, l.
  - destruct IH as [IH|(b & u' & a & ->)].
    + left. now constructor.
    + right. now exists ((ContextWindowPath, u) :: b), u', a.
Qed.

(** C9, as the code has it.  In first-fragment mode with
    [MinimumFirstFragmentLength = 10], whenever [Stream] sends a unit by the
    quick yield, everything it sends before and after that unit comes from
    the context-window branch (the quick yield fires once at most); the
    unit is the cleanup of the buffer as it stood when a fragment delimiter
    [c] was scanned, a buffer of more than 10 bytes that ends with [c]; and
    [c] is the first fragment delimiter scanned with the buffer above 10
    bytes. *)
Theorem first_fragment_quick_yield_once (cfg : SentenceSplitterConfig)
        (chunks : list text) (before after : list (yieldPath * text)) (unit : text) :
  YieldMode cfg = QuickYieldFirstFragment ->
  MinimumFirstFragmentLength cfg = 10 ->
  snd (StreamTagged (addAll (NewSentenceSplitter cfg) chunks))
  = before ++ (QuickYieldPath, unit) :: after ->
  Forall fromContextWindow before
  /\ Forall fromContextWindow after
  /\ exists pre c post,
       concat chunks = pre ++ c :: post /\ c <> 0
       /\ snd (processChunk (NewSentenceSplitter cfg) pre) = before
       /\ ContainsRune (SentenceFragmentDelimiters cfg) c = true
       /\ 10 < Len (scannedBuffer (fst (processChunk (NewSentenceSplitter cfg) pre)) c)
       /\ (exists front,
             scannedBuffer (fst (processChunk (NewSentenceSplitter cfg) pre)) c
             = front ++ [c])
       /\ unit = CleanText
                   (scannedBuffer (fst (processChunk (NewSentenceSplitter cfg) pre)) c)
                   (CleanupOptions cfg)
       /\ (forall pre1 d pre2, pre = pre1 ++ d :: pre2 -> d <> 0 ->
             10 < Len (scannedBuffer
                         (fst (processChunk (NewSentenceSplitter cfg) pre1)) d) ->
             ContainsRune (SentenceFragmentDelimiters cfg) d = false).
Proof.
  intros Hmode Hmin E. rewrite StreamTagged_flat in E.
  destruct (quick_yield_shape (concat chunks) (NewSentenceSplitter cfg)
              before after unit Hmode E)
    as (Hb & Ha & pre & c & post & Hsplit & Hc & Hpre & Hq & Hu & Hfirst).
  split; [assumption|]. split; [assumption|].
  exists pre, c, post.
  pose proof (processChunk_config (NewSentenceSplitter cfg) pre) as Hcfg.
  destruct (quickYieldFires_isFirst _ _ _ Hq) as (_ & Hlen & Hdelim).
  rewrite Hcfg in Hlen, Hdelim. cbn [NewSentenceSplitter config] in Hlen, Hdelim.
  rewrite Hmin in Hlen.
  repeat split; try assumption.
  - destruct (scannedBuffer_ends (fst (processChunk (NewSentenceSplitter cfg) pre)) c)
      as [Hnil|Hends]; [|exact Hends].
    rewrite Hnil in Hlen. cbn in Hlen. lia.
  - intros pre1 d pre2 Hp Hd Hlong.
    specialize (Hfirst pre1 d pre2 Hp Hd).
    assert (Hflag : isFirstSentence
                      (fst (processChunk (NewSentenceSplitter cfg) pre1)) = true).
    { apply before_quick_yield; [assumption | reflexivity |].
      rewrite <- Hpre, Hp, processChunk_app in Hb. cbn [snd] in Hb.
      apply Forall_app in Hb. tauto. }
    pose proof (processChunk_config (NewSentenceSplitter cfg) pre1) as Hcfg1.
    unfold quickYieldFires, fragmentDelimiterSet in Hfirst.
    rewrite Hflag, Hcfg1 in Hfirst. cbn [NewSentenceSplitter config] in Hfirst.
    rewrite Hmode, Hmin in Hfirst. apply Z.ltb_lt in Hlong. rewrite Hlong in Hfirst.
    exact Hfirst.
Qed.

(** The quick yield does fire: in first-fragment mode, a fragment delimiter
    scanned with the buffer above [MinimumFirstFragmentLength] makes
    [Stream] send a unit by the quick yield, there or earlier. *)
Lemma first_fragment_quick_yield_fires (cfg : SentenceSplitterConfig)
      (chunks : list text) (pre : text) (c : rune) (post : text) :
  YieldMode cfg = QuickYieldFirstFragment ->
  concat chunks = pre ++ c :: post -> c <> 0 ->
  ContainsRune (SentenceFragmentDelimiters cfg) c = true ->
  MinimumFirstFragmentLength cfg
    < Len (scannedBuffer (fst (processChunk (NewSentenceSplitter cfg) pre)) c) ->
  exists before unit after,
    snd (StreamTagged (addAll (NewSentenceSplitter cfg) chunks))
    = before ++ (QuickYieldPath, unit) :: after.
Proof.
  intros Hmode Hsplit Hc Hdelim Hlen.
  rewrite StreamTagged_flat, Hsplit, processChunk_app. cbn [snd].
  destruct (context_window_or_quick_yield
              (snd (processChunk (NewSentenceSplitter cfg) pre)))
    as [Hcw|(b & u & a & E)].
  - pose proof (before_quick_yield (NewSentenceSplitter cfg) pre Hmode eq_refl Hcw)
      as Hflag.
    pose proof (processChunk_config (NewSentenceSplitter cfg) pre) as Hcfg.
    set (s1 := fst (processChunk (NewSentenceSplitter cfg) pre)) in *.
    assert (Hq : quickYieldFires s1 (scannedBuffer s1 c) c = true).
    { unfold quickYieldFires, fragmentDelimiterSet. rewrite Hflag, Hcfg.
      cbn [NewSentenceSplitter config]. rewrite Hmode, Hdelim.
      apply Z.ltb_lt in Hlen. now rewrite Hlen. }
    destruct (processChar_quick s1 c Hq) as [Hsent _].
    cbn [processChunk]. apply Z.eqb_neq in Hc. rewrite Hc.
    destruct (processChar s1 c) as [s2 sent2]. cbn [snd] in Hsent. subst sent2.
    destruct (processChunk s2 post) as [s3 sent3]. cbn [snd].
    now eexists _, _, sent3.
  - rewrite E. rewrite <- app_assoc. cbn [app]. now eexists b, u, _.
Qed.

(** With no link, emoji or table cleanup, the units as sent keep the text. *)
Lemma nonSpace_CleanText_trim_only (t : text) (flags : CleanupFlags) :
  HasFlag flags CleanupTable = false ->
  HasFlag flags CleanupLinks = false ->
  HasFlag flags CleanupEmojis = false ->
  nonSpace (CleanText t flags) = nonSpace t.
Proof.
  intros H1 H2 H3. unfold CleanText. cbv zeta. rewrite H1, H2, H3.
  destruct (HasFlag flags StripText); [apply nonSpace_TrimSpace | reflexivity].
Qed.

Lemma trim_only_keeps_the_text (cfg : SentenceSplitterConfig) (chunks : list text) :
  HasFlag (CleanupOptions cfg) CleanupTable = false ->
  HasFlag (CleanupOptions cfg) CleanupLinks = false ->
  HasFlag (CleanupOptions cfg) CleanupEmojis = false ->
  nonSpace (concat (streamThenFlush cfg chunks)) = nonSpace (dropNUL (concat chunks)).
Proof.
  intros H1 H2 H3.
  rewrite streamThenFlush_uncleaned,
    <- (streamThenFlush_nonSpace (uncleaned cfg) chunks eq_refl).
  induction (streamThenFlush (uncleaned cfg) chunks) as [|u l IH]; [reflexivity|].
  cbn [map concat]. rewrite !nonSpace_app, IH.
  now rewrite nonSpace_CleanText_trim_only.
Qed.

(** *** Chunk boundaries carry no meaning *)




End Splitter.

Lemma first_fragment_quick_yield_once_witness :
  Forall fromContextWindow []
  /\ Forall fromContextWindow []
  /\ exists pre c post,
       concat [quickFragmentExample] = pre ++ c :: post /\ c <> 0
       /\ snd (@processChunk asciiTables (NewSentenceSplitter firstFragmentConfig) pre)
          = []
       /\ ContainsRune (SentenceFragmentDelimiters firstFragmentConfig) c = true
       /\ 10 < Len (scannedBuffer
                      (fst (@processChunk asciiTables
                              (NewSentenceSplitter firstFragmentConfig) pre)) c)
       /\ (exists front,
             scannedBuffer
               (fst (@processChunk asciiTables
                       (NewSentenceSplitter firstFragmentConfig) pre)) c
             = front ++ [c])
       /\ str "This is a quick sentence fragment,"
          = CleanText
              (scannedBuffer
                 (fst (@processChunk asciiTables
                         (NewSentenceSplitter firstFragmentConfig) pre)) c)
              (CleanupOptions firstFragmentConfig)
       /\ (forall pre1 d pre2, pre = pre1 ++ d :: pre2 -> d <> 0 ->
             10 < Len (scannedBuffer
                         (fst (@processChunk asciiTables
                                 (NewSentenceSplitter firstFragmentConfig) pre1)) d) ->
             ContainsRune (SentenceFragmentDelimiters firstFragmentConfig) d = false).
Proof.
  apply (@first_fragment_quick_yield_once asciiTables firstFragmentConfig
           [quickFragmentExample] [] []
           (str "This is a quick sentence fragment,")).
  - reflexivity.
  - reflexivity.
  - vm_compute. reflexivity.
Defined.

(** C9, as stated, fails on "abcdefghi <NL>": in first-fragment mode (the
    other settings the defaults) the newline is scanned with a buffer of 11
    bytes, the quick yield fires, and the unit sent, the first and only one,
    is the trimmed "abcdefghi", 9 bytes long. *)
Lemma quick_yield_unit_below_ten :
  snd (@StreamTagged asciiTables
         (addAll (NewSentenceSplitter firstFragmentConfig) [shortFirstFragment]))
  = [(QuickYieldPath, str "abcdefghi")]
  /\ @streamThenFlush asciiTables firstFragmentConfig [shortFirstFragment]
     = [str "abcdefghi"]
  /\ Len (str "abcdefghi") = 9.
Proof. repeat split; vm_compute; reflexivity. Qed.


(* ================================================================== *)
(** * Further properties *)

(** ** The word tables *)

Lemma eqText_eq (a b : text) : eqText a b = true <-> a = b.
Proof.
  revert b. induction a as [|x a IH]; intros [|y b]; cbn [eqText];
    try (split; [discriminate | discriminate]); [tauto|].
  rewrite andb_true_iff, Z.eqb_eq, IH. split.
  - intros [-> ->]. reflexivity.
  - intros E. injection E as -> ->. now split.
Qed.

Lemma setHas_In (m : stringSet) (key : text) : setHas m key = true <-> In key m.
Proof.
  unfold setHas. rewrite existsb_exists. split.
  - intros (x & Hx & E). apply eqText_eq in E. now subst.
  - intros H. exists key. split; [assumption | now apply eqText_eq].
Qed.

Lemma asciiTables_lower_idempotent : ToLowerIdempotent asciiTables.
Proof.
  intros r. cbn. unfold asciiToLower, asciiIsUpper.
  destruct ((65 <=? r) && (r <=? 90)) eqn:E; [|now rewrite E].
  apply andb_true_iff in E. rewrite Z.leb_le, Z.leb_le in E.
  replace ((65 <=? r + 32) && (r + 32 <=? 90)) with false; [reflexivity|].
  symmetry. apply andb_false_iff. right. apply Z.leb_gt. lia.
Qed.

Section WordTables.
Context {U : UnicodeTables}.
Hypothesis lower_idempotent : ToLowerIdempotent U.

Lemma ToLowerText_idempotent (t : text) :
  ToLowerText (ToLowerText t) = ToLowerText t.
Proof.
  unfold ToLowerText. rewrite map_map. apply map_ext. exact lower_idempotent.
Qed.

Lemma In_insertWords (allWords : list text) (m : stringSet) (key : text) :
  In key (insertWords allWords m)
  <-> In key m \/ exists word, In word allWords
                               /\ (key = word \/ key = ToLowerText word).
Proof.
  revert m. induction allWords as [|w allWords IH]; intros m.
  - cbn. split; [tauto | intros [H|(x & [] & _)]; exact H].
  - cbn [insertWords]. rewrite IH. cbn [In]. split.
    + intros [[H|[H|H]]|(x & Hx & Hk)].
      * right. exists w. split; [now left | now right].
      * right. exists w. split; [now left | now left].
      * now left.
      * right. exists x. split; [now right | assumption].
    + intros [H | (x & [-> | Hx] & [Hk | Hk])].
      * left. now right; right.
      * left. right. now left.
      * left. now left.
      * right. exists x. split; [assumption | now left].
      * right. exists x. split; [assumption | now right].
Qed.

(** Looking a word up as it is and in lower case, in the map built from a
    word list, is looking its lower-case form up among the lower-case forms
    of the list. *)
Lemma lookup_case_insensitive (allWords : list text) (word : text) :
  setHas (insertWords allWords []) word
  || setHas (insertWords allWords []) (ToLowerText word)
  = setHas (map ToLowerText allWords) (ToLowerText word).
Proof.
  apply eq_true_iff_eq.
  rewrite orb_true_iff, !setHas_In, !In_insertWords, in_map_iff. split.
  - intros [[Hnil | (x & Hx & [-> | ->])] | [Hnil | (x & Hx & [E | E])]];
      try contradiction.
    + now exists x.
    + exists x. split; [symmetry; apply ToLowerText_idempotent | assumption].
    + exists x. split; [|assumption]. rewrite <- E. apply ToLowerText_idempotent.
    + exists x. split; [now symmetry | assumption].
  - intros (x & E & Hx). right. right. exists x. split; [assumption | now right].
Qed.

End WordTables.

(** X1.  [IsAvoidPauseWord] is a case-insensitive test: on the map not yet
    built, or built by an earlier call, it leaves the built map and answers
    whether the lower-case form of the word is the lower-case form of a
    word of the ten lists that [initAvoidPauseWords] appends. *)
Theorem avoid_pause_word_case_insensitive (U : UnicodeTables)
        (AvoidPauseWords : option stringSet) (word : text) :
  ToLowerIdempotent U ->
  AvoidPauseWords = None \/ AvoidPauseWords = initAvoidPauseWords None ->
  IsAvoidPauseWord AvoidPauseWords word
  = (initAvoidPauseWords None,
     setHas (map ToLowerText avoidPauseAllWords) (ToLowerText word)).
Proof.
  intros Hlow [->| ->]; unfold IsAvoidPauseWord; cbn [initAvoidPauseWords mapHas];
    f_equal; now apply lookup_case_insensitive.
Qed.

Lemma avoid_pause_word_case_insensitive_witness :
  @IsAvoidPauseWord asciiTables None (str "AND")
  = (@initAvoidPauseWords asciiTables None, true).
Proof.
  rewrite (@avoid_pause_word_case_insensitive asciiTables None (str "AND")
             asciiTables_lower_idempotent (or_introl eq_refl)).
  reflexivity.
Defined.

(** X2.  [IsDelimiterIgnorePrefix] is a case-insensitive test in the same
    way, over the four lists that [initDelimiterIgnorePrefixes] appends. *)
Theorem delimiter_ignore_prefix_case_insensitive (U : UnicodeTables)
        (DelimiterIgnorePrefixes : option stringSet) (prefix : text) :
  ToLowerIdempotent U ->
  DelimiterIgnorePrefixes = None
  \/ DelimiterIgnorePrefixes = initDelimiterIgnorePrefixes None ->
  IsDelimiterIgnorePrefix DelimiterIgnorePrefixes prefix
  = (initDelimiterIgnorePrefixes None,
     setHas (map ToLowerText delimiterIgnoreAllPrefixes) (ToLowerText prefix)).
Proof.
  intros Hlow [->| ->]; unfold IsDelimiterIgnorePrefix;
    cbn [initDelimiterIgnorePrefixes mapHas]; f_equal;
    now apply lookup_case_insensitive.
Qed.

Lemma delimiter_ignore_prefix_case_insensitive_witness :
  @IsDelimiterIgnorePrefix asciiTables None (str "u.s.a.")
  = (@initDelimiterIgnorePrefixes asciiTables None, true).
Proof.
  rewrite (@delimiter_ignore_prefix_case_insensitive asciiTables None (str "u.s.a.")
             asciiTables_lower_idempotent (or_introl eq_refl)).
  reflexivity.
Defined.

(** ** Further properties of the classifier *)

Section ClassifierMore.
Context {U : UnicodeTables}.

Lemma findNonSpaceFrom_spec (rest : text) (i : nat) :
  match findNonSpaceFrom rest i with
  | Some j =>
      (i <= j < i + length rest)%nat
      /\ IsSpace (nth (j - i) rest 0) = false
      /\ (forall k, (i <= k < j)%nat -> IsSpace (nth (k - i) rest 0) = true)
  | None => forall k, (k < length rest)%nat -> IsSpace (nth k rest 0) = true
  end.
Proof.
  revert i. induction rest as [|r rest IH]; intros i.
  - cbn. intros k Hk. lia.
  - cbn [findNonSpaceFrom]. destruct (IsSpace r) eqn:E; cbn [negb].
    + specialize (IH (S i)). destruct (findNonSpaceFrom rest (S i)) as [j|].
      * destruct IH as (Hj & Hns & Hsp). cbn [length]. repeat split; try lia.
        -- replace (j - i)%nat with (S (j - S i)) by lia. exact Hns.
        -- intros k Hk. destruct (Nat.eq_dec k i) as [->|Hne].
           ++ now rewrite Nat.sub_diag.
           ++ replace (k - i)%nat with (S (k - S i)) by lia. apply Hsp. lia.
      * intros [|k] Hk; [exact E|]. apply IH. cbn in Hk. lia.
    + cbn [length]. repeat split; try lia. now rewrite Nat.sub_diag.
Qed.

(** X3.  [findNextNonSpace] returns the least index from [start] on that
    holds a character which is not white space, and [-1] ([None]) exactly
    when every character from [start] on is white space. *)
Theorem findNextNonSpace_least (runes : text) (start : nat) :
  match findNextNonSpace runes start with
  | Some j =>
      (start <= j < length runes)%nat
      /\ IsSpace (runeAt runes j) = false
      /\ (forall k, (start <= k < j)%nat -> IsSpace (runeAt runes k) = true)
  | None =>
      forall k, (start <= k < length runes)%nat -> IsSpace (runeAt runes k) = true
  end.
Proof.
  unfold findNextNonSpace, runeAt.
  pose proof (findNonSpaceFrom_spec (skipn start runes) start) as H.
  destruct (findNonSpaceFrom (skipn start runes) start) as [j|].
  - destruct H as (Hj & Hns & Hsp). rewrite length_skipn in Hj.
    rewrite nth_skipn in Hns. repeat split; try lia.
    + now replace (start + (j - start))%nat with j in Hns by lia.
    + intros k Hk. specialize (Hsp k Hk). rewrite nth_skipn in Hsp.
      now replace (start + (k - start))%nat with k in Hsp by lia.
  - intros k Hk. specialize (H (k - start)%nat). rewrite length_skipn, nth_skipn in H.
    replace (start + (k - start))%nat with k in H by lia. apply H. lia.
Qed.

Lemma scanLineStart_spec (runes : text) (pos : nat) :
  IsLineStart runes pos (scanLineStart runes pos).
Proof.
  unfold IsLineStart. induction pos as [|k IH].
  - cbn [scanLineStart]. split; [lia|]. split; [now left | intros m Hm; lia].
  - cbn [scanLineStart]. destruct (runeAt runes k =? chNL) eqn:E.
    + apply Z.eqb_eq in E. split; [lia|]. split; [|intros m Hm; lia].
      right. now replace (S k - 1)%nat with k by lia.
    + apply Z.eqb_neq in E. destruct IH as (Hle & Hnl & Hno).
      split; [lia|]. split; [exact Hnl|].
      intros m Hm. destruct (Nat.eq_dec m k) as [->|Hne]; [exact E|].
      apply Hno. lia.
Qed.

Lemma scanLineEnd_spec (rest : text) (e0 : nat) :
  (e0 <= scanLineEnd rest e0 <= e0 + length rest)%nat
  /\ ((scanLineEnd rest e0 - e0)%nat = length rest
      \/ nth (scanLineEnd rest e0 - e0) rest 0 = chNL)
  /\ (forall m, (m < scanLineEnd rest e0 - e0)%nat -> nth m rest 0 <> chNL).
Proof.
  revert e0. induction rest as [|r rest IH]; intros e0.
  - cbn [scanLineEnd length]. split; [lia|]. split; [left; lia | intros m Hm; lia].
  - cbn [scanLineEnd]. destruct (r =? chNL) eqn:E.
    + apply Z.eqb_eq in E. rewrite Nat.sub_diag. cbn [length nth].
      split; [lia|]. split; [now right | intros m Hm; lia].
    + apply Z.eqb_neq in E. destruct (IH (S e0)) as (Hb & Hend & Hno).
      cbn [length]. split; [lia|]. split.
      * replace (scanLineEnd rest (S e0) - e0)%nat
          with (S (scanLineEnd rest (S e0) - S e0)) by lia.
        cbn [nth]. destruct Hend as [Hend|Hend]; [left; lia | now right].
      * intros [|m] Hm; [exact E|]. cbn [nth]. apply Hno. lia.
Qed.

Lemma lineEndOf_spec (runes : text) (pos : nat) :
  (pos < length runes)%nat -> IsLineEnd runes pos (lineEndOf runes pos).
Proof.
  intros Hpos. unfold IsLineEnd, lineEndOf.
  destruct (scanLineEnd_spec (skipn (S pos) runes) pos) as (Hb & Hend & Hno).
  set (e := scanLineEnd (skipn (S pos) runes) pos) in *.
  rewrite length_skipn in Hb, Hend. split; [lia|]. split.
  - destruct Hend as [Hend|Hend]; [left; lia | right].
    rewrite nth_skipn in Hend.
    now replace (S pos + (e - pos))%nat with (S e) in Hend by lia.
  - intros k Hk. specialize (Hno (k - S pos)%nat ltac:(lia)).
    rewrite nth_skipn in Hno.
    now replace (S pos + (k - S pos))%nat with k in Hno by lia.
Qed.

(** X4.  The two scanning loops of [isInsideTableCell] find the line of a
    position: it starts after the nearest newline before the position (or
    at the start of the text) and ends before the nearest newline after it
    (or at the end of the text), the character at the position itself not
    being looked at. *)
Theorem line_bounds_found (runes : text) (pos : nat) :
  (pos < length runes)%nat ->
  IsLineStart runes pos (lineStartOf runes pos)
  /\ IsLineEnd runes pos (lineEndOf runes pos).
Proof.
  intros Hpos. split; [apply scanLineStart_spec | now apply lineEndOf_spec].
Qed.

Lemma Count_pos_index (t : text) (c : rune) :
  0 < Count t c -> exists i, (i < length t)%nat /\ nth i t 0 = c.
Proof.
  induction t as [|r t IH]; cbn [Count]; [lia|].
  destruct (r =? c) eqn:E.
  - intros _. exists O. split; [cbn; lia | now apply Z.eqb_eq].
  - intros H. destruct IH as (i & Hi & Hn); [lia|].
    exists (S i). split; [cbn; lia | exact Hn].
Qed.

(** X5.  A position is inside a table cell for [isInsideTableCell] exactly
    when its line holds a pipe before the position and a pipe after it:
    with two pipes the line always passes [detectTableLine], so that test
    never changes the answer. *)
Theorem inside_table_cell_iff_pipes (runes : text) (pos : nat) :
  (pos < length runes)%nat ->
  isInsideTableCell runes pos = true
  <-> exists i j,
        (lineStartOf runes pos <= i < pos)%nat /\ runeAt runes i = chPipe
        /\ (pos < j <= lineEndOf runes pos)%nat /\ runeAt runes j = chPipe.
Proof.
  intros Hpos. pose proof (scanLineStart_spec runes pos) as Hs.
  fold (lineStartOf runes pos) in Hs.
  pose proof (lineEndOf_spec runes pos Hpos) as He.
  pose proof He as ((_ & Helen) & _).
  unfold isInsideTableCell, lineOf, pipesBefore, pipesAfter. split.
  - destruct (detectTableLine _); [|discriminate].
    rewrite andb_true_iff, !Z.ltb_lt. intros [Hb Ha].
    destruct (Count_pos_index _ _ Hb) as (i & Hi & Hpi).
    destruct (Count_pos_index _ _ Ha) as (j & Hj & Hpj).
    destruct Hs as (Hsle & _).
    rewrite length_slice in Hi, Hj by lia.
    exists (lineStartOf runes pos + i)%nat, (S pos + j)%nat.
    repeat split; try lia.
    + rewrite <- Hpi. symmetry.
      rewrite <- (nth_slice runes (lineStartOf runes pos) pos) by lia.
      f_equal. lia.
    + rewrite <- Hpj. symmetry.
      rewrite <- (nth_slice runes (S pos) (S (lineEndOf runes pos))) by lia.
      f_equal. lia.
  - intros (i & j & Hi & Hpi & Hj & Hpj).
    pose proof (pipes_make_table_row _ _ _ _ _ _ Hs He Hi Hpi Hj Hpj) as Htab.
    apply detectTableLine_spec in Htab. rewrite Htab.
    rewrite andb_true_iff, !Z.ltb_lt. split; apply Count_pos.
    + rewrite <- Hpi. apply in_slice; lia.
    + rewrite <- Hpj. apply in_slice; lia.
Qed.

End ClassifierMore.

Lemma line_bounds_found_witness :
  IsLineStart (str "ab" ++ [chNL] ++ str "cd. e" ++ [chNL] ++ str "f") 5 3
  /\ IsLineEnd (str "ab" ++ [chNL] ++ str "cd. e" ++ [chNL] ++ str "f") 5 7.
Proof.
  apply (line_bounds_found (str "ab" ++ [chNL] ++ str "cd. e" ++ [chNL] ++ str "f") 5).
  vm_compute. lia.
Defined.

Lemma inside_table_cell_iff_pipes_witness :
  isInsideTableCell (str "| a. B | c |") 3 = true.
Proof.
  apply (inside_table_cell_iff_pipes (str "| a. B | c |") 3 ltac:(vm_compute; lia)).
  exists 0%nat, 7%nat. repeat split; vm_compute; lia.
Defined.

(** ** Trimming *)

Lemma dropWhile_head (p : rune -> bool) (t : text) :
  match dropWhile p t with
  | [] => True
  | r :: _ => p r = false
  end.
Proof.
  induction t as [|r t IH]; [exact I|]. cbn [dropWhile].
  destruct (p r) eqn:E; [exact IH | exact E].
Qed.

Lemma dropWhile_fixed (p : rune -> bool) (t : text) :
  match t with [] => True | r :: _ => p r = false end ->
  dropWhile p t = t.
Proof. destruct t as [|r t]; [reflexivity|]. cbn. now intros ->. Qed.

Lemma dropWhile_app_last (p : rune -> bool) (l : text) (x : rune) :
  p x = false -> exists l', dropWhile p (l ++ [x]) = l' ++ [x].
Proof.
  intros Hx. induction l as [|r l IH]; cbn [app dropWhile].
  - rewrite Hx. now exists [].
  - destruct (p r); [exact IH | now exists (r :: l)].
Qed.

(** Trimming on the right keeps the first character. *)
Lemma TrimRightFunc_head (p : rune -> bool) (t : text) :
  match t with [] => True | r :: _ => p r = false end ->
  match TrimRightFunc t p with [] => True | r :: _ => p r = false end.
Proof.
  unfold TrimRightFunc. destruct t as [|x t]; [intros _; exact I|].
  intros Hx. cbn [rev]. destruct (dropWhile_app_last p (rev t) x Hx) as (l' & ->).
  rewrite rev_app_distr. exact Hx.
Qed.

Lemma TrimSpace_trimmed (t : text) : Trimmed (TrimSpace t).
Proof.
  unfold Trimmed. unfold TrimSpace at 1. unfold TrimLeftFunc.
  assert (Hhead : match TrimSpace t with [] => True | r :: _ => IsSpace r = false end).
  { unfold TrimSpace, TrimLeftFunc. apply TrimRightFunc_head, dropWhile_head. }
  rewrite (dropWhile_fixed IsSpace (TrimSpace t) Hhead).
  unfold TrimRightFunc, TrimSpace at 1, TrimRightFunc.
  rewrite rev_involutive.
  rewrite (dropWhile_fixed IsSpace (dropWhile IsSpace (rev (TrimLeftFunc t IsSpace))))
    by apply dropWhile_head.
  reflexivity.
Qed.

(** A trimmed text that is not empty starts and ends with characters that
    are not white space. *)
Lemma Trimmed_ends (t : text) :
  Trimmed t -> t <> [] ->
  (exists r t', t = r :: t' /\ IsSpace r = false)
  /\ (exists t' r, t = t' ++ [r] /\ IsSpace r = false).
Proof.
  intros Ht Hne. unfold Trimmed in Ht. split.
  - assert (H : match TrimSpace t with [] => True | r :: _ => IsSpace r = false end).
    { unfold TrimSpace, TrimLeftFunc. apply TrimRightFunc_head, dropWhile_head. }
    rewrite Ht in H. destruct t as [|r t']; [contradiction|]. now exists r, t'.
  - pose proof (dropWhile_head IsSpace (rev (TrimLeftFunc t IsSpace))) as H.
    assert (E : rev t = dropWhile IsSpace (rev (TrimLeftFunc t IsSpace))).
    { rewrite <- Ht at 1. unfold TrimSpace, TrimRightFunc. apply rev_involutive. }
    rewrite <- E in H. destruct (rev t) as [|r l] eqn:Er.
    + apply (f_equal (@rev rune)) in Er. rewrite rev_involutive in Er. contradiction.
    + exists (rev l), r. split; [|exact H].
      apply (f_equal (@rev rune)) in Er. rewrite rev_involutive in Er. exact Er.
Qed.

Section TokenizerMore.
Context {U : UnicodeTables}.

Lemma Forall_appendNonEmpty_trimmed (sentences : list text) (x : text) :
  Forall (fun span => span <> [] /\ Trimmed span) sentences ->
  Forall (fun span => span <> [] /\ Trimmed span)
         (appendNonEmpty sentences (TrimSpace x)).
Proof.
  intros H. unfold appendNonEmpty. destruct (TrimSpace x) as [|r l] eqn:E;
    cbn [isEmpty]; [assumption|].
  apply Forall_app. split; [assumption|]. constructor; [|constructor].
  split; [discriminate|]. rewrite <- E. apply TrimSpace_trimmed.
Qed.

Lemma tokenizeLoop_trimmed (delims runes rest : text) (i : nat) (current : text)
      (sentences : list text) :
  Forall (fun span => span <> [] /\ Trimmed span) sentences ->
  Forall (fun span => span <> [] /\ Trimmed span)
         (tokenizeLoop delims runes rest i current sentences).
Proof.
  revert i current sentences.
  induction rest as [|r rest IH]; intros i current sentences H.
  - cbn [tokenizeLoop]. now apply Forall_appendNonEmpty_trimmed.
  - cbn [tokenizeLoop]. destruct (negb (ContainsRune delims r)); [now apply IH|].
    destruct (isEndOfSentence runes i); [|now apply IH].
    apply IH. now apply Forall_appendNonEmpty_trimmed.
Qed.

Lemma Tokenize_trimmed (t delims : text) :
  Forall (fun span => span <> [] /\ Trimmed span)
         (TokenizeSentencesWithDelimiters t delims).
Proof.
  unfold TokenizeSentencesWithDelimiters. destruct (isEmpty t); [constructor|].
  apply tokenizeLoop_trimmed. constructor.
Qed.

(** X6.  Every span the tokenizer returns is non-empty and has no white
    space at either end. *)
Theorem spans_are_trimmed_and_not_empty (t delims : text) :
  Forall (fun span => span <> [] /\ Trimmed span)
         (TokenizeSentencesWithDelimiters t delims).
Proof.
  unfold TokenizeSentencesWithDelimiters. destruct (isEmpty t); [constructor|].
  apply tokenizeLoop_trimmed. constructor.
Qed.

(** X7.  The spans of a text, put end to end, hold exactly its characters
    that are not white space, in the text's order: the tokenizer drops
    nothing but white space, repeats nothing and reorders nothing. *)
Theorem spans_keep_the_text (t delims : text) :
  nonSpace (concat (TokenizeSentencesWithDelimiters t delims)) = nonSpace t.
Proof.
  unfold TokenizeSentencesWithDelimiters. destruct t as [|r t]; [reflexivity|].
  cbn [isEmpty]. rewrite nonSpace_tokenizeLoop. reflexivity.
Qed.

Lemma length_appendNonEmpty (sentences : list text) (x : text) :
  (length (appendNonEmpty sentences x) <= S (length sentences))%nat.
Proof.
  unfold appendNonEmpty. destruct (isEmpty x); [lia|].
  rewrite length_app. cbn. lia.
Qed.

Lemma tokenizeLoop_count (delims runes rest : text) (i : nat) (current : text)
      (sentences : list text) :
  (length (tokenizeLoop delims runes rest i current sentences)
   <= length sentences + delimiterCount delims rest + 1)%nat.
Proof.
  revert i current sentences.
  induction rest as [|r rest IH]; intros i current sentences.
  - cbn [tokenizeLoop]. pose proof (length_appendNonEmpty sentences (TrimSpace current)).
    unfold delimiterCount. cbn. lia.
  - cbn [tokenizeLoop]. unfold delimiterCount in *. cbn [filter].
    destruct (ContainsRune delims r); cbn [negb length].
    + destruct (isEndOfSentence runes i).
      * specialize (IH (S i) [] (appendNonEmpty sentences (TrimSpace (current ++ [r])))).
        pose proof (length_appendNonEmpty sentences (TrimSpace (current ++ [r]))).
        lia.
      * specialize (IH (S i) (current ++ [r]) sentences). lia.
    + apply IH.
Qed.

(** X8.  The tokenizer returns at most one span more than the text has
    occurrences of delimiter characters. *)
Theorem span_count_bounded (t delims : text) :
  (length (TokenizeSentencesWithDelimiters t delims) <= S (delimiterCount delims t))%nat.
Proof.
  unfold TokenizeSentencesWithDelimiters. destruct (isEmpty t); [cbn; lia|].
  pose proof (tokenizeLoop_count delims t t 0 [] []) as H. cbn [length] in H. lia.
Qed.

End TokenizerMore.

(** ** The abbreviation test *)

Section AbbreviationMore.
Context {U : UnicodeTables}.

Lemma letterRunStart_spec (runes : text) (dotPos : nat) :
  IsLetterRunStart runes dotPos (letterRunStart runes dotPos).
Proof.
  unfold IsLetterRunStart. induction dotPos as [|k IH].
  - cbn [letterRunStart]. split; [lia|]. split; [intros m Hm; lia | now left].
  - cbn [letterRunStart]. destruct (IsLetter (runeAt runes k)) eqn:E.
    + destruct IH as (Hle & Hall & Hstop). split; [lia|]. split; [|exact Hstop].
      intros m Hm. destruct (Nat.eq_dec m k) as [->|Hne]; [exact E|].
      apply Hall. lia.
    + split; [lia|]. split; [intros m Hm; lia|].
      right. now replace (S k - 1)%nat with k by lia.
Qed.

Lemma letterRunStart_unique (runes : text) (dotPos start : nat) :
  IsLetterRunStart runes dotPos start -> letterRunStart runes dotPos = start.
Proof.
  unfold IsLetterRunStart. induction dotPos as [|k IH]; intros (Hle & Hall & Hstop).
  - cbn. lia.
  - cbn [letterRunStart]. destruct (IsLetter (runeAt runes k)) eqn:E.
    + apply IH. split; [|split; [|exact Hstop]].
      * destruct Hstop as [->|Hstop]; [lia|].
        destruct (Nat.eq_dec start (S k)) as [->|Hne]; [|lia].
        replace (S k - 1)%nat with k in Hstop by lia. congruence.
      * intros m Hm. apply Hall. lia.
    + destruct (Nat.eq_dec start (S k)) as [->|Hne]; [reflexivity|].
      specialize (Hall k ltac:(lia)). congruence.
Qed.

Lemma common_key_length (key : text) :
  isCommonAbbreviation key = true -> (2 <= length key)%nat.
Proof.
  intros H. apply setHas_In in H.
  assert (A : Forall (fun k : text => (2 <= length k)%nat) commonAbbreviations).
  { unfold commonAbbreviations. repeat constructor. }
  rewrite Forall_forall in A. now apply A.
Qed.

(** X9.  For a period inside the text, [isAbbreviation] answers [true]
    exactly when the longest run of letters that ends just before the
    period is a key of [commonAbbreviations], as written or in lower case:
    its two early returns ([dotPos < 2], empty run) never change that. *)
Theorem abbreviation_iff_letter_run (runes : text) (dotPos : nat) :
  (dotPos <= length runes)%nat ->
  isAbbreviation runes dotPos = true
  <-> exists start,
        IsLetterRunStart runes dotPos start
        /\ (isCommonAbbreviation (slice runes start dotPos)
            || isCommonAbbreviation (ToLowerText (slice runes start dotPos))) = true.
Proof.
  intros Hlen. unfold isAbbreviation. split.
  - destruct (dotPos <? 2)%nat; [discriminate|].
    destruct (dotPos <=? letterRunStart runes dotPos)%nat; [discriminate|].
    intros H. exists (letterRunStart runes dotPos).
    split; [apply letterRunStart_spec | exact H].
  - intros (start & Hrun & Hkey).
    rewrite (letterRunStart_unique _ _ _ Hrun).
    assert (Hlong : (2 <= length (slice runes start dotPos))%nat).
    { apply orb_true_iff in Hkey. destruct Hkey as [Hkey|Hkey].
      - now apply common_key_length.
      - apply common_key_length in Hkey. unfold ToLowerText in Hkey.
        now rewrite length_map in Hkey. }
    rewrite length_slice in Hlong by assumption.
    replace (dotPos <? 2)%nat with false by (symmetry; apply Nat.ltb_ge; lia).
    replace (dotPos <=? start)%nat with false by (symmetry; apply Nat.leb_gt; lia).
    exact Hkey.
Qed.

End AbbreviationMore.

Lemma abbreviation_iff_letter_run_witness :
  @isAbbreviation asciiTables (str "see ETC. now") 7 = true.
Proof.
  apply (@abbreviation_iff_letter_run asciiTables (str "see ETC. now") 7
           ltac:(vm_compute; lia)).
  exists 4%nat. split; [|reflexivity].
  split; [lia|]. split; [|now right].
  intros k Hk. do 4 (destruct k as [|k]; [lia|]).
  do 3 (destruct k as [|k]; [reflexivity|]). lia.
Defined.

(** ** Further properties of the splitter *)

Lemma Len_app (a b : text) : Len (a ++ b) = Len a + Len b.
Proof. induction a as [|r a IH]; cbn [app Len]; [lia | rewrite IH; lia]. Qed.

Lemma dropWhile_app_head (p : rune -> bool) (a x : text) :
  match x with [] => True | r :: _ => p r = false end ->
  dropWhile p (a ++ x) = dropWhile p a ++ x.
Proof.
  intros Hx. induction a as [|r a IH]; cbn [app dropWhile].
  - now apply dropWhile_fixed.
  - destruct (p r); [exact IH | reflexivity].
Qed.

(** Trimming what was put before a trimmed text leaves that text whole. *)
Lemma TrimSpace_app_trimmed (a x : text) :
  Trimmed x -> x <> [] -> TrimSpace (a ++ x) = dropWhile IsSpace a ++ x.
Proof.
  intros Ht Hne.
  destruct (Trimmed_ends x Ht Hne) as ((r & x1 & E1 & Hr) & (x2 & l & E2 & Hl)).
  unfold TrimSpace, TrimLeftFunc, TrimRightFunc.
  rewrite dropWhile_app_head by (rewrite E1; exact Hr).
  rewrite E2 at 1. rewrite app_assoc, rev_app_distr. cbn [rev app dropWhile].
  rewrite Hl. change (l :: rev (dropWhile IsSpace a ++ x2))
    with (rev [l] ++ rev (dropWhile IsSpace a ++ x2)).
  rewrite <- rev_app_distr, rev_involutive, <- app_assoc, <- E2. reflexivity.
Qed.

Lemma Len_TrimSpace_app (a x : text) :
  Trimmed x -> Len x <= Len (TrimSpace (a ++ x)).
Proof.
  intros Ht. destruct x as [|r x].
  - cbn [Len]. apply Len_nonneg.
  - rewrite TrimSpace_app_trimmed by (assumption || discriminate).
    rewrite Len_app. pose proof (Len_nonneg (dropWhile IsSpace a)). lia.
Qed.

Lemma removelast_good_tail {A} (Q : A -> Prop) (good tail : list A) :
  Forall Q good -> (length tail <= 1)%nat -> Forall Q (removelast (good ++ tail)).
Proof.
  intros Hg Ht. destruct tail as [|x [|y tail]].
  - rewrite app_nil_r. now apply Forall_removelast'.
  - rewrite removelast_last. exact Hg.
  - cbn in Ht. lia.
Qed.

Section SplitterMore.
Context {U : UnicodeTables}.


(** X11.  [Stream] empties the queue, and a second [Stream] with nothing
    added in between sends nothing and changes nothing. *)
Theorem stream_again_sends_nothing (s : SentenceSplitter) :
  inputBuffer (fst (Stream s)) = []
  /\ Stream (fst (Stream s)) = (fst (Stream s), []).
Proof.
  unfold Stream, StreamTagged. rewrite drainInput_flat. cbn [fst snd inputBuffer setInputBuffer].
  split; [reflexivity|]. cbn [drainInput map]. now rewrite setInputBuffer_twice.
Qed.

Lemma processChunk_no_quick_yield (s : SentenceSplitter) (chunk : text) :
  YieldMode (config s) = NoQuickYield ->
  Forall fromContextWindow (snd (processChunk s chunk)).
Proof.
  revert s. induction chunk as [|c chunk IH]; intros s Hmode; [constructor|].
  cbn [processChunk]. destruct (c =? 0); [now apply IH|].
  assert (Hq : quickYieldFires s (scannedBuffer s c) c = false).
  { unfold quickYieldFires. rewrite Hmode. cbn [quickYieldEnabled].
    now rewrite andb_false_r. }
  destruct (processChar_no_quick s c Hq) as [Hcw _].
  pose proof (processChar_config s c) as Hc.
  destruct (processChar s c) as [s1 sent1]. cbn [fst snd] in *.
  specialize (IH s1 ltac:(congruence)).
  destruct (processChunk s1 chunk) as [s2 sent2]. cbn [snd] in *.
  apply Forall_app. now split.
Qed.

(** X12.  With quick yield disabled, nothing [Stream] sends comes from the
    quick-yield branch, whatever the input and the other settings. *)
Theorem disabled_quick_yield_never_fires (cfg : SentenceSplitterConfig)
        (chunks : list text) :
  YieldMode cfg = NoQuickYield ->
  Forall fromContextWindow
         (snd (StreamTagged (addAll (NewSentenceSplitter cfg) chunks))).
Proof.
  intros Hmode. rewrite StreamTagged_flat. now apply processChunk_no_quick_yield.
Qed.

Lemma combineLoop_shape (m : Z) (sentences combined : list text) (temp : text) :
  Forall (fun x => Trimmed x) sentences ->
  Forall (fun c => m <= Len c) combined ->
  exists good tail,
    combineLoop m sentences combined temp = good ++ tail
    /\ Forall (fun c => m <= Len c) good /\ (length tail <= 1)%nat.
Proof.
  revert combined temp.
  induction sentences as [|x sentences IH]; intros combined temp Ht Hc.
  - cbn [combineLoop]. destruct (negb (isEmpty temp)).
    + exists combined, [TrimSpace temp]. repeat split; [assumption | cbn; lia].
    + exists combined, []. rewrite app_nil_r. repeat split; [assumption | cbn; lia].
  - inversion Ht as [|? ? Hx Hrest]; subst. cbn [combineLoop].
    destruct (Len x <? m) eqn:E; [now apply IH|].
    apply Z.ltb_ge in E. destruct (negb (isEmpty temp)).
    + apply IH; [assumption|]. apply Forall_app. split; [assumption|].
      constructor; [|constructor].
      pose proof (Len_TrimSpace_app temp x Hx). lia.
    + apply IH; [assumption|]. apply Forall_app. split; [assumption|].
      constructor; [|constructor].
      pose proof (Len_TrimSpace_app [] x Hx) as H. cbn [app] in H. lia.
Qed.

(** X13.  [combineSentences], given spans without white space at their
    ends (as the tokenizer returns them), returns a list in which every
    element but the last is at least [minimumSentenceLength] bytes long. *)
Theorem combined_spans_reach_minimum (s : SentenceSplitter) (sentences : list text) :
  Forall (fun x => Trimmed x) sentences ->
  Forall (fun c => MinimumSentenceLength (config s) <= Len c)
         (removelast (combineSentences s sentences)).
Proof.
  intros Ht. unfold combineSentences.
  destruct (length sentences <=? 1)%nat eqn:E.
  - apply Nat.leb_le in E. destruct sentences as [|x [|y l]]; cbn in *;
      [constructor | constructor | lia].
  - destruct (combineLoop_shape (MinimumSentenceLength (config s)) sentences [] []
                Ht ltac:(constructor)) as (good & tail & -> & Hg & Hl).
    now apply removelast_good_tail.
Qed.

Lemma flushLoop_shape (m : Z) (sentences : list text) (sentenceBuffer : text) :
  exists good tail,
    flushLoop m 0 sentences sentenceBuffer = good ++ tail
    /\ Forall (fun unit => m <= Len unit) good /\ (length tail <= 1)%nat.
Proof.
  revert sentenceBuffer.
  induction sentences as [|x sentences IH]; intros sentenceBuffer.
  - cbn [flushLoop]. destruct (negb (isEmpty sentenceBuffer)).
    + exists [], [CleanText sentenceBuffer 0]. repeat split; [constructor | cbn; lia].
    + exists [], []. repeat split; [constructor | cbn; lia].
  - cbn [flushLoop]. destruct (Len (sentenceBuffer ++ x) <? m) eqn:E; [apply IH|].
    apply Z.ltb_ge in E. destruct (IH []) as (good & tail & -> & Hg & Hl).
    exists (CleanText (sentenceBuffer ++ x) 0 :: good), tail.
    repeat split; [|assumption]. constructor; [now rewrite CleanText_none | assumption].
Qed.

(** X14.  The units [Flush] sends are the cleanups of units of which every
    one but the last is at least [minimumSentenceLength] bytes long. *)
Theorem flush_units_reach_minimum (s : SentenceSplitter) :
  exists uncleanedUnits,
    Flush s = map (fun unit => CleanText unit (CleanupOptions (config s)))
                  uncleanedUnits
    /\ Forall (fun unit => MinimumSentenceLength (config s) <= Len unit)
              (removelast uncleanedUnits).
Proof.
  exists (Flush (uncleanedSplitter s)). split; [apply Flush_uncleaned|].
  unfold Flush. cbn [uncleanedSplitter uncleaned withCleanupOptions config buffer
                     MinimumSentenceLength CleanupOptions SentenceFragmentDelimiters].
  destruct (0 <? Len (buffer s)); [|constructor].
  destruct (flushLoop_shape (MinimumSentenceLength (config s))
              (TokenizeSentencesWithDelimiters (buffer s)
                 (SentenceFragmentDelimiters (config s))) [])
    as (good & tail & -> & Hg & Hl).
  now apply removelast_good_tail.
Qed.

End SplitterMore.

Lemma disabled_quick_yield_never_fires_witness :
  Forall fromContextWindow
    (snd (@StreamTagged asciiTables
            (addAll (NewSentenceSplitter (withYieldMode DefaultConfig NoQuickYield))
                    [fourSentences]))).
Proof.
  exact (@disabled_quick_yield_never_fires asciiTables
           (withYieldMode DefaultConfig NoQuickYield) [fourSentences] eq_refl).
Defined.

Lemma combined_spans_reach_minimum_witness :
  Forall (fun c => 10 <= Len c)
    (removelast (combineSentences (NewSentenceSplitter DefaultConfig)
                   [str "Hi."; str "How are you?"; str "Fine."])).
Proof.
  apply (combined_spans_reach_minimum (NewSentenceSplitter DefaultConfig)
           [str "Hi."; str "How are you?"; str "Fine."]).
  repeat constructor.
Defined.

(** ** Splitting and joining *)

Lemma Split_not_nil (t : text) (sep : rune) : Split t sep <> [].
Proof.
  destruct t as [|r t]; cbn [Split]; [discriminate|].
  destruct (r =? sep); [discriminate|]. now destruct (Split t sep).
Qed.

Lemma Join_cons (p : text) (ps : list text) (sep : text) :
  ps <> [] -> Join (p :: ps) sep = p ++ sep ++ Join ps sep.
Proof. destruct ps; [contradiction | reflexivity]. Qed.

Lemma Join_Split (t : text) (sep : rune) : Join (Split t sep) [sep] = t.
Proof.
  induction t as [|r t IH]; [reflexivity|]. cbn [Split].
  destruct (r =? sep) eqn:E.
  - apply Z.eqb_eq in E. subst r. rewrite Join_cons by apply Split_not_nil.
    cbn [app]. now rewrite IH.
  - pose proof (Split_not_nil t sep) as Hne.
    destruct (Split t sep) as [|piece pieces]; [contradiction|].
    destruct pieces as [|q pieces].
    + cbn in IH. cbn. now rewrite IH.
    + rewrite Join_cons by discriminate. rewrite Join_cons in IH by discriminate.
      cbn [app] in IH |- *. now rewrite IH.
Qed.

Lemma Split_piece (p : text) (sep : rune) : ~ In sep p -> Split p sep = [p].
Proof.
  induction p as [|r p IH]; intros H; [reflexivity|]. cbn [Split].
  destruct (r =? sep) eqn:E.
  - apply Z.eqb_eq in E. exfalso. apply H. now left.
  - rewrite IH; [reflexivity|]. intros Hin. apply H. now right.
Qed.

Lemma Split_app_sep (p t : text) (sep : rune) :
  ~ In sep p -> Split (p ++ sep :: t) sep = p :: Split t sep.
Proof.
  induction p as [|r p IH]; intros H.
  - cbn [app Split]. now rewrite Z.eqb_refl.
  - cbn [app Split]. destruct (r =? sep) eqn:E.
    + apply Z.eqb_eq in E. exfalso. apply H. now left.
    + rewrite IH; [reflexivity|]. intros Hin. apply H. now right.
Qed.

Lemma Split_Join (parts : list text) (sep : rune) :
  parts <> [] -> Forall (fun p => ~ In sep p) parts ->
  Split (Join parts [sep]) sep = parts.
Proof.
  induction parts as [|p parts IH]; intros Hne H; [contradiction|].
  inversion H as [|? ? Hp Hrest]; subst. destruct parts as [|q parts].
  - cbn [Join]. now apply Split_piece.
  - rewrite Join_cons by discriminate. cbn [app].
    rewrite Split_app_sep by assumption. f_equal. apply IH; [discriminate | assumption].
Qed.

Lemma Split_no_sep (t : text) (sep : rune) :
  Forall (fun p => ~ In sep p) (Split t sep).
Proof.
  induction t as [|r t IH]; [repeat constructor; intros []|]. cbn [Split].
  destruct (r =? sep) eqn:E.
  - constructor; [intros [] | assumption].
  - apply Z.eqb_neq in E. destruct (Split t sep) as [|piece pieces].
    + repeat constructor. intros [H|[]]. congruence.
    + inversion IH; subst. constructor; [|assumption].
      intros [H|H]; [congruence | contradiction].
Qed.

(** The pieces of a join, the join of no piece being the empty text with
    its one empty piece. *)
Lemma Split_Join_Forall (Q : text -> Prop) (parts : list text) (sep : rune) :
  Q [] -> Forall (fun p => ~ In sep p) parts -> Forall Q parts ->
  Forall Q (Split (Join parts [sep]) sep).
Proof.
  intros Hnil Hsep HQ. destruct parts as [|p parts].
  - cbn. now repeat constructor.
  - now rewrite Split_Join by (assumption || discriminate).
Qed.

(** ** Cleanup *)

Lemma Forall_filter_sub {A} (Q : A -> Prop) (f : A -> bool) (l : list A) :
  Forall Q l -> Forall Q (filter f l).
Proof.
  intros H. rewrite Forall_forall in *. intros x Hx.
  apply filter_In in Hx. now apply H.
Qed.

Lemma filter_all {A} (f : A -> bool) (l : list A) :
  Forall (fun x => f x = true) l -> filter f l = l.
Proof.
  induction l as [|x l IH]; intros H; [reflexivity|].
  inversion H as [|? ? Hx Hl]; subst. cbn [filter]. rewrite Hx. now rewrite IH.
Qed.

Lemma stripHTTPURLs_words (t : text) :
  stripHTTPURLs t
  = Join (filter (fun word => negb (isURLWord word)) (Split t chSpace)) [chSpace].
Proof.
  unfold stripHTTPURLs, isURLWord. cbv zeta. f_equal. apply filter_ext.
  intros w. now rewrite negb_orb.
Qed.

Lemma stripHTTPURLs_fixed (t : text) :
  Forall (fun word => isURLWord word = false) (Split t chSpace) ->
  stripHTTPURLs t = t.
Proof.
  intros H. rewrite stripHTTPURLs_words, filter_all; [apply Join_Split|].
  revert H. apply Forall_impl. now intros w ->.
Qed.

Lemma stripHTTPURLs_no_link (t : text) :
  Forall (fun word => isURLWord word = false) (Split (stripHTTPURLs t) chSpace).
Proof.
  rewrite stripHTTPURLs_words. apply Split_Join_Forall.
  - reflexivity.
  - apply Forall_filter_sub, Split_no_sep.
  - apply Forall_forall. intros w Hw. apply filter_In in Hw.
    destruct Hw as [_ Hw]. now apply negb_true_iff in Hw.
Qed.

(** X15.  After [stripHTTPURLs] no word between spaces starts with
    "http://" or "https://", and stripping links a second time changes
    nothing. *)
Theorem links_are_stripped (t : text) :
  Forall (fun word => isURLWord word = false) (Split (stripHTTPURLs t) chSpace)
  /\ stripHTTPURLs (stripHTTPURLs t) = stripHTTPURLs t.
Proof.
  split; [apply stripHTTPURLs_no_link|].
  apply stripHTTPURLs_fixed, stripHTTPURLs_no_link.
Qed.

Lemma normalizeLines_incl (lines : list text) (n : Z) (x : text) :
  In x (normalizeLines lines n) -> In x lines.
Proof.
  revert n. induction lines as [|line lines IH]; intros n; [trivial|].
  cbn [normalizeLines]. destruct (isEmpty (TrimSpace line)).
  - cbv zeta. destruct (n + 1 <=? 1).
    + intros [H|H]; [now left | right; eapply IH; eassumption].
    + intros H. right. eapply IH; eassumption.
  - intros [H|H]; [now left | right; eapply IH; eassumption].
Qed.

Lemma normalizeLines_not_nil (lines : list text) :
  lines <> [] -> normalizeLines lines 0 <> [].
Proof.
  destruct lines as [|line lines]; [contradiction|]. intros _.
  cbn [normalizeLines]. destruct (isEmpty (TrimSpace line)); cbn; discriminate.
Qed.

Lemma normalizeLines_noBlankPair (lines : list text) (n : Z) :
  0 <= n ->
  noBlankPair (normalizeLines lines n)
  /\ (1 <= n -> match normalizeLines lines n with
                | [] => True
                | x :: _ => isBlankLine x = false
                end).
Proof.
  revert n. induction lines as [|line lines IH]; intros n Hn; [now split|].
  cbn [normalizeLines]. fold (isBlankLine line).
  destruct (isBlankLine line) eqn:E.
  - cbv zeta. destruct (IH (n + 1) ltac:(lia)) as [Hpair Hhead].
    specialize (Hhead ltac:(lia)). destruct (n + 1 <=? 1) eqn:En.
    + apply Z.leb_le in En. split; [|lia]. cbn [noBlankPair]. split; [|assumption].
      destruct (normalizeLines lines (n + 1)); [exact I|].
      intros [_ Hb]. congruence.
    + split; [assumption | now intros _].
  - destruct (IH 0 ltac:(lia)) as [Hpair _]. split; [|now intros _].
    cbn [noBlankPair]. split; [|assumption].
    destruct (normalizeLines lines 0); [exact I|]. intros [Hb _]. congruence.
Qed.

Lemma normalizeLines_fixed (lines : list text) (n : Z) :
  noBlankPair lines -> 0 <= n ->
  (1 <= n -> match lines with [] => True | x :: _ => isBlankLine x = false end) ->
  normalizeLines lines n = lines.
Proof.
  revert n. induction lines as [|line lines IH]; intros n Hpair Hn Hhead;
    [reflexivity|].
  cbn [noBlankPair] in Hpair. destruct Hpair as [Hfirst Hrest].
  cbn [normalizeLines]. fold (isBlankLine line).
  destruct (isBlankLine line) eqn:E.
  - assert (n = 0) as ->.
    { destruct (Z_lt_le_dec n 1) as [Hlt|Hge]; [lia|]. specialize (Hhead Hge).
      congruence. }
    cbn. f_equal. apply IH; [assumption | lia |]. intros _.
    destruct lines as [|next lines]; [exact I|].
    destruct (isBlankLine next) eqn:En; [|reflexivity]. exfalso. now apply Hfirst.
  - f_equal. apply IH; [assumption | lia | lia].
Qed.

Lemma Split_normalizeNewlines (t : text) :
  Split (normalizeNewlines t) chNL = normalizeLines (Split t chNL) 0.
Proof.
  unfold normalizeNewlines. apply Split_Join.
  - apply normalizeLines_not_nil, Split_not_nil.
  - apply Forall_forall. intros x Hx. apply normalizeLines_incl in Hx.
    pose proof (Split_no_sep t chNL) as H. rewrite Forall_forall in H. now apply H.
Qed.

Lemma normalizeNewlines_fixed (t : text) :
  noBlankPair (Split t chNL) -> normalizeNewlines t = t.
Proof.
  intros H. unfold normalizeNewlines.
  rewrite normalizeLines_fixed; [apply Join_Split | assumption | lia | lia].
Qed.

(** X16.  After [normalizeNewlines] no two consecutive lines are both
    blank (empty or white space only), and normalizing a second time
    changes nothing. *)
Theorem blank_lines_are_collapsed (t : text) :
  noBlankPair (Split (normalizeNewlines t) chNL)
  /\ normalizeNewlines (normalizeNewlines t) = normalizeNewlines t.
Proof.
  assert (H : noBlankPair (Split (normalizeNewlines t) chNL)).
  { rewrite Split_normalizeNewlines. now apply normalizeLines_noBlankPair. }
  split; [exact H | now apply normalizeNewlines_fixed].
Qed.

Lemma stripTableLines_Forall (Q : text -> Prop) (lines cleaned : list text) :
  Q [] ->
  (forall line, In line lines -> detectTableLine line = false -> Q line) ->
  Forall Q cleaned ->
  Forall Q (stripTableLines lines cleaned).
Proof.
  intros Hnil. revert cleaned.
  induction lines as [|line lines IH]; intros cleaned Hl Hc; [assumption|].
  cbn [stripTableLines]. destruct (detectTableLine line) eqn:E.
  - destruct ((0 <? length cleaned)%nat && negb (isEmpty (last cleaned []))).
    + apply IH; [intros x Hx; apply Hl; now right|].
      apply Forall_app. split; [assumption | now repeat constructor].
    + apply IH; [intros x Hx; apply Hl; now right | assumption].
  - apply IH; [intros x Hx; apply Hl; now right|].
    apply Forall_app. split; [assumption|]. constructor; [|constructor].
    apply Hl; [now left | assumption].
Qed.

Lemma stripTableLines_fixed (lines cleaned : list text) :
  Forall (fun line => detectTableLine line = false) lines ->
  stripTableLines lines cleaned = cleaned ++ lines.
Proof.
  revert cleaned. induction lines as [|line lines IH]; intros cleaned H.
  - cbn. now rewrite app_nil_r.
  - inversion H as [|? ? Hl Hrest]; subst. cbn [stripTableLines]. rewrite Hl.
    rewrite IH by assumption. now rewrite <- app_assoc.
Qed.

Lemma stripTableStructures_fixed (t : text) :
  Forall (fun line => detectTableLine line = false) (Split t chNL) ->
  noBlankPair (Split t chNL) ->
  stripTableStructures t = t.
Proof.
  intros Htab Hblank. unfold stripTableStructures.
  rewrite stripTableLines_fixed by assumption. cbn [app].
  rewrite Join_Split. now apply normalizeNewlines_fixed.
Qed.

(** X17.  After [stripTableStructures] no line is a table line for
    [detectTableLine], and no two consecutive lines are both blank. *)
Theorem table_lines_are_stripped (t : text) :
  Forall (fun line => detectTableLine line = false)
         (Split (stripTableStructures t) chNL)
  /\ noBlankPair (Split (stripTableStructures t) chNL).
Proof.
  unfold stripTableStructures. split.
  - rewrite Split_normalizeNewlines. apply Forall_forall. intros x Hx.
    apply normalizeLines_incl in Hx. revert x Hx. apply Forall_forall.
    apply Split_Join_Forall; [reflexivity | |].
    + apply stripTableLines_Forall; [intros [] | | constructor].
      intros line Hline _.
      pose proof (Split_no_sep t chNL) as H. rewrite Forall_forall in H. now apply H.
    + apply stripTableLines_Forall; [reflexivity | | constructor]. now intros line _ E.
  - rewrite Split_normalizeNewlines. now apply normalizeLines_noBlankPair.
Qed.

(** X18.  Cleanup leaves clean text alone: a text with no table line, no
    two consecutive blank lines, no word starting with "http://" or
    "https://", no emoji and no white space at its ends is returned as it
    is by [CleanText], whatever the options. *)
Theorem clean_text_is_unchanged (t : text) (flags : CleanupFlags) :
  Forall (fun line => detectTableLine line = false) (Split t chNL) ->
  noBlankPair (Split t chNL) ->
  Forall (fun word => isURLWord word = false) (Split t chSpace) ->
  Forall (fun r => isEmojiRune r = false) t ->
  Trimmed t ->
  CleanText t flags = t.
Proof.
  intros Htab Hblank Hlink Hemoji Htrim. unfold CleanText. cbv zeta.
  rewrite stripTableStructures_fixed by assumption.
  replace (if HasFlag flags CleanupTable then t else t) with t
    by now destruct (HasFlag flags CleanupTable).
  rewrite stripHTTPURLs_fixed by assumption.
  replace (if HasFlag flags CleanupLinks then t else t) with t
    by now destruct (HasFlag flags CleanupLinks).
  assert (E : stripEmojis t = t).
  { unfold stripEmojis. apply filter_all. revert Hemoji. apply Forall_impl.
    now intros r ->. }
  rewrite E.
  replace (if HasFlag flags CleanupEmojis then t else t) with t
    by now destruct (HasFlag flags CleanupEmojis).
  destruct (HasFlag flags StripText); [exact Htrim | reflexivity].
Qed.

Lemma clean_text_is_unchanged_witness :
  CleanText (str "Plain text, two words.") CleanupAll = str "Plain text, two words.".
Proof.
  apply clean_text_is_unchanged.
  - replace (Split (str "Plain text, two words.") chNL)
      with [str "Plain text, two words."] by (vm_compute; reflexivity).
    constructor; [vm_compute; reflexivity | constructor].
  - replace (Split (str "Plain text, two words.") chNL)
      with [str "Plain text, two words."] by (vm_compute; reflexivity).
    cbn [noBlankPair]. split; exact I.
  - replace (Split (str "Plain text, two words.") chSpace)
      with [str "Plain"; str "text,"; str "two"; str "words."]
      by (vm_compute; reflexivity).
    repeat (constructor; [vm_compute; reflexivity|]). constructor.
  - apply Forall_forall. intros r Hr.
    assert (Ha : isAscii r = true).
    { revert r Hr. apply Forall_forall. vm_compute.
      repeat (constructor; [reflexivity|]). constructor. }
    unfold isAscii in Ha. apply andb_true_iff in Ha.
    rewrite Z.leb_le, Z.ltb_lt in Ha. unfold isEmojiRune.
    repeat (apply orb_false_iff; split);
      try (apply andb_false_iff; left; apply Z.leb_gt; lia);
      apply Z.eqb_neq; lia.
  - vm_compute. reflexivity.
Defined.

(** X19.  With the emoji option on, [CleanText] returns a text without any
    emoji rune, whatever the other options. *)
Theorem no_emoji_is_left (t : text) (flags : CleanupFlags) :
  HasFlag flags CleanupEmojis = true ->
  Forall (fun r => isEmojiRune r = false) (CleanText t flags).
Proof.
  intros H. unfold CleanText. cbv zeta. rewrite H.
  set (t2 := if HasFlag flags CleanupLinks then _ else _). clearbody t2.
  assert (E : Forall (fun r => isEmojiRune r = false) (stripEmojis t2)).
  { unfold stripEmojis. apply Forall_forall. intros r Hr. apply filter_In in Hr.
    destruct Hr as [_ Hr]. now apply negb_true_iff in Hr. }
  destruct (HasFlag flags StripText); [|exact E].
  unfold TrimSpace, TrimRightFunc, TrimLeftFunc.
  apply Forall_rev, Forall_dropWhile, Forall_rev, Forall_dropWhile. exact E.
Qed.

Lemma no_emoji_is_left_witness :
  Forall (fun r => isEmojiRune r = false)
         (CleanText (str "Hi " ++ [0x1F600] ++ str " there") CleanupEmojis).
Proof.
  apply (no_emoji_is_left (str "Hi " ++ [0x1F600] ++ str " there") CleanupEmojis).
  vm_compute. reflexivity.
Defined.

(** X20.  With the trim option on, [CleanText] returns a text with no white
    space at either end, whatever the other options. *)
Theorem cleaned_text_is_trimmed (t : text) (flags : CleanupFlags) :
  HasFlag flags StripText = true -> Trimmed (CleanText t flags).
Proof.
  intros H. unfold CleanText. cbv zeta. rewrite H. apply TrimSpace_trimmed.
Qed.

Lemma cleaned_text_is_trimmed_witness :
  Trimmed (CleanText (str "  padded text ") StripText).
Proof.
  apply (cleaned_text_is_trimmed (str "  padded text ") StripText).
  vm_compute. reflexivity.
Defined.

(** ** The buffer *)

Lemma dropWhile_dropWhile_app (p : rune -> bool) (x y : text) :
  dropWhile p (dropWhile p x ++ y) = dropWhile p (x ++ y).
Proof.
  induction x as [|r x IH]; [reflexivity|]. cbn [dropWhile app].
  destruct (p r) eqn:E; [exact IH|]. cbn [app dropWhile]. now rewrite E.
Qed.

Lemma TrimSpace_TrimLeft (t : text) :
  TrimSpace (TrimLeft t trimLeftCutset) = TrimSpace t.
Proof.
  unfold TrimSpace, TrimLeftFunc, TrimLeft. f_equal.
  induction t as [|r t IH]; [reflexivity|]. cbn [dropWhile].
  destruct (ContainsRune trimLeftCutset r) eqn:E; [|reflexivity].
  now rewrite (trimLeftCutset_spaces r E).
Qed.

Lemma TrimLeft_head (t : text) :
  match TrimLeft t trimLeftCutset with
  | [] => True
  | r :: _ => ContainsRune trimLeftCutset r = false
  end.
Proof. apply dropWhile_head. Qed.

Section BufferMore.
Context {U : UnicodeTables}.

Lemma Tokenize_no_delimiter (t delims : text) :
  Forall (fun r => ContainsRune delims r = false) t ->
  TokenizeSentencesWithDelimiters t delims = appendNonEmpty [] (TrimSpace t).
Proof.
  intros H. unfold TokenizeSentencesWithDelimiters. destruct t as [|r t];
    [reflexivity|].
  cbn [isEmpty]. now rewrite tokenizeLoop_no_delimiter.
Qed.

(** A character that is no fragment delimiter, written to a buffer that
    holds none, is only accumulated. *)
Lemma processChar_no_delimiter (s : SentenceSplitter) (c : rune) :
  Forall (fun r => fragmentDelimiterSet s r = false) (buffer s) ->
  fragmentDelimiterSet s c = false ->
  snd (processChar s c) = []
  /\ buffer (fst (processChar s c)) = scannedBuffer s c.
Proof.
  intros Hb Hc. unfold processChar. cbv zeta. fold (scannedBuffer s c).
  assert (Hq : quickYieldFires s (scannedBuffer s c) c = false).
  { unfold quickYieldFires. rewrite Hc. apply andb_false_r. }
  rewrite Hq. destruct (Len (scannedBuffer s c) <=? _); [now split|].
  assert (Hs : Forall (fun r => ContainsRune (SentenceFragmentDelimiters (config s)) r
                                = false) (scannedBuffer s c)).
  { unfold scannedBuffer, TrimLeft. apply Forall_dropWhile. apply Forall_app.
    split; [exact Hb | now repeat constructor]. }
  rewrite (Tokenize_no_delimiter _ _ Hs).
  assert (Hone : (length (combineSentences s
                            (appendNonEmpty [] (TrimSpace (scannedBuffer s c))))
                  <= 1)%nat).
  { unfold combineSentences, appendNonEmpty.
    destruct (isEmpty (TrimSpace (scannedBuffer s c))); cbn; lia. }
  replace (1 <? length (combineSentences s
                          (appendNonEmpty [] (TrimSpace (scannedBuffer s c)))))%nat
    with false by (symmetry; apply Nat.ltb_ge; exact Hone).
  rewrite andb_false_r. cbn [andb fst snd buffer]. now split.
Qed.

Lemma fragmentDelimiterSet_processChar (s : SentenceSplitter) (c r : rune) :
  fragmentDelimiterSet (fst (processChar s c)) r = fragmentDelimiterSet s r.
Proof. unfold fragmentDelimiterSet. now rewrite processChar_config. Qed.

Lemma processChunk_no_delimiter (s : SentenceSplitter) (chunk : text) :
  TrimLeft (buffer s) trimLeftCutset = buffer s ->
  Forall (fun r => fragmentDelimiterSet s r = false) (buffer s) ->
  Forall (fun r => fragmentDelimiterSet s r = false) chunk ->
  snd (processChunk s chunk) = []
  /\ buffer (fst (processChunk s chunk))
     = TrimLeft (buffer s ++ dropNUL chunk) trimLeftCutset.
Proof.
  revert s. induction chunk as [|c chunk IH]; intros s Ht Hb Hc.
  - cbn [processChunk fst snd dropNUL filter]. now rewrite app_nil_r, Ht.
  - inversion Hc as [|? ? Hc1 Hc2]; subst.
    cbn [processChunk dropNUL filter]. fold (dropNUL chunk).
    destruct (c =? 0); cbn [negb]; [now apply IH|].
    destruct (processChar_no_delimiter s c Hb Hc1) as [Hsent Hbuf].
    pose proof (fragmentDelimiterSet_processChar s c) as Hset.
    destruct (processChar s c) as [s1 sent1]. cbn [fst snd] in *. subst sent1.
    destruct (IH s1) as [Hsent2 Hbuf2].
    + rewrite Hbuf. unfold scannedBuffer, TrimLeft. apply dropWhile_fixed.
      apply dropWhile_head.
    + rewrite Hbuf. unfold scannedBuffer, TrimLeft. apply Forall_dropWhile.
      apply Forall_app. split.
      * revert Hb. apply Forall_impl. intros r Hr. now rewrite Hset.
      * constructor; [now rewrite Hset | constructor].
    + revert Hc2. apply Forall_impl. intros r Hr. now rewrite Hset.
    + destruct (processChunk s1 chunk) as [s2 sent2]. cbn [fst snd] in *.
      split; [assumption|]. rewrite Hbuf2, Hbuf. unfold scannedBuffer, TrimLeft.
      rewrite dropWhile_dropWhile_app, <- app_assoc. reflexivity.
Qed.

(** X21.  An input in which no fragment delimiter occurs (as when the
    delimiter string is empty) is kept whole: [Stream] sends nothing, and
    [Flush] sends nothing when the input without its NULs is white space
    only, and otherwise the cleanup of the one unit made of the trimmed
    input, with a space appended when it is shorter than
    [minimumSentenceLength]. *)
Theorem undelimited_input_is_one_unit (cfg : SentenceSplitterConfig)
        (chunks : list text) :
  Forall (Forall (fun r => ContainsRune (SentenceFragmentDelimiters cfg) r = false))
         chunks ->
  snd (Stream (addAll (NewSentenceSplitter cfg) chunks)) = []
  /\ streamThenFlush cfg chunks
     = let whole := TrimSpace (dropNUL (concat chunks)) in
       if isEmpty whole then []
       else [CleanText (if Len whole <? MinimumSentenceLength cfg
                        then whole ++ [chSpace] else whole)
                       (CleanupOptions cfg)].
Proof.
  intros H.
  destruct (processChunk_no_delimiter (NewSentenceSplitter cfg) (concat chunks))
    as [Hsent Hbuf]; [reflexivity | constructor | now apply Forall_concat |].
  pose proof (processChunk_config (NewSentenceSplitter cfg) (concat chunks)) as Hcfg.
  split.
  { unfold Stream. rewrite StreamTagged_flat.
    destruct (processChunk (NewSentenceSplitter cfg) (concat chunks)) as [s sent].
    cbn [fst snd] in *. now subst sent. }
  rewrite streamThenFlush_flat, Hsent. cbn [map app].
  unfold Flush. rewrite Hcfg, Hbuf. cbn [NewSentenceSplitter config buffer app].
  set (input := dropNUL (concat chunks)).
  assert (Hno : Forall (fun r => ContainsRune (SentenceFragmentDelimiters cfg) r = false)
                       (TrimLeft input trimLeftCutset)).
  { unfold TrimLeft. apply Forall_dropWhile. unfold input, dropNUL.
    apply Forall_filter_sub. now apply Forall_concat. }
  rewrite (Tokenize_no_delimiter _ _ Hno), TrimSpace_TrimLeft.
  cbv zeta. unfold appendNonEmpty.
  destruct (TrimSpace input) as [|r whole] eqn:Ew; cbn [isEmpty].
  - now destruct (0 <? Len (TrimLeft input trimLeftCutset)).
  - assert (Hpos : (0 <? Len (TrimLeft input trimLeftCutset)) = true).
    { apply Z.ltb_lt. destruct (TrimLeft input trimLeftCutset) as [|x l] eqn:El.
      - rewrite <- TrimSpace_TrimLeft, El in Ew. discriminate Ew.
      - cbn [Len]. pose proof (RuneLen_pos x). pose proof (Len_nonneg l). lia. }
    rewrite Hpos. cbn [app flushLoop].
    destruct (Len (r :: whole) <? MinimumSentenceLength cfg); reflexivity.
Qed.

Lemma processChunk_blank (s : SentenceSplitter) (chunk : text) :
  buffer s = [] ->
  0 <= MinimumFirstFragmentLength (config s) ->
  Forall (fun r => r = 0 \/ ContainsRune trimLeftCutset r = true) chunk ->
  snd (processChunk s chunk) = [] /\ buffer (fst (processChunk s chunk)) = [].
Proof.
  revert s. induction chunk as [|c chunk IH]; intros s Hb Hmin Hc; [now split|].
  inversion Hc as [|? ? Hc1 Hc2]; subst. cbn [processChunk].
  destruct (c =? 0) eqn:E; [now apply IH|].
  destruct Hc1 as [->|Hc1]; [discriminate E|].
  assert (Hstep : snd (processChar s c) = [] /\ buffer (fst (processChar s c)) = []).
  { unfold processChar. cbv zeta. rewrite Hb. cbn [app TrimLeft dropWhile].
    unfold TrimLeft. cbn [dropWhile]. rewrite Hc1.
    assert (Hq : quickYieldFires s [] c = false).
    { unfold quickYieldFires. cbn [Len].
      replace (MinimumFirstFragmentLength (config s) <? 0) with false
        by (symmetry; apply Z.ltb_ge; lia).
      now rewrite andb_false_r. }
    rewrite Hq. destruct (Len [] <=? _); [now split|].
    unfold TokenizeSentencesWithDelimiters, combineSentences.
    cbn [isEmpty length Nat.leb Nat.ltb orb andb]. rewrite andb_false_r.
    cbn [andb fst snd buffer]. now split. }
  pose proof (processChar_config s c) as Hcfg.
  destruct Hstep as [Hs1 Hb1].
  destruct (processChar s c) as [s1 sent1]. cbn [fst snd] in *. subst sent1.
  destruct (IH s1 Hb1 ltac:(now rewrite Hcfg) Hc2) as [Hs2 Hb2].
  destruct (processChunk s1 chunk) as [s2 sent2]. cbn [fst snd] in *.
  now subst sent2.
Qed.

(** X22.  An input of spaces, tabs, newlines, carriage returns and NULs
    only sends nothing, neither on [Stream] nor on [Flush], when the
    minimum first-fragment length is not negative. *)
Theorem blank_input_sends_nothing (cfg : SentenceSplitterConfig)
        (chunks : list text) :
  0 <= MinimumFirstFragmentLength cfg ->
  Forall (Forall (fun r => r = 0 \/ ContainsRune trimLeftCutset r = true)) chunks ->
  streamThenFlush cfg chunks = [].
Proof.
  intros Hmin H.
  destruct (processChunk_blank (NewSentenceSplitter cfg) (concat chunks))
    as [Hsent Hbuf]; [reflexivity | exact Hmin | now apply Forall_concat |].
  rewrite streamThenFlush_flat, Hsent. unfold Flush. now rewrite Hbuf.
Qed.

End BufferMore.

Lemma undelimited_input_is_one_unit_witness :
  snd (@Stream asciiTables
         (addAll (NewSentenceSplitter DefaultConfig) [str "no "; str "stop here"]))
  = []
  /\ @streamThenFlush asciiTables DefaultConfig [str "no "; str "stop here"]
     = [str "no stop here"].
Proof.
  destruct (@undelimited_input_is_one_unit asciiTables DefaultConfig
              [str "no "; str "stop here"]) as [H1 H2].
  - repeat (constructor; [repeat (constructor; [vm_compute; reflexivity|]);
                          constructor|]).
    constructor.
  - split; [exact H1|]. rewrite H2. vm_compute. reflexivity.
Defined.

Lemma blank_input_sends_nothing_witness :
  @streamThenFlush asciiTables DefaultConfig [[chSpace; chNL]; [0; chTab; chCR]] = [].
Proof.
  apply (@blank_input_sends_nothing asciiTables DefaultConfig
           [[chSpace; chNL]; [0; chTab; chCR]]).
  - vm_compute. discriminate.
  - repeat constructor; (now left) || (now right).
Defined.

(** ** The buffer never starts with white space *)

Lemma nonSpace_TrimSpace_nonempty (x : text) :
  nonSpace x <> [] -> TrimSpace x <> [].
Proof.
  intros H E. apply H. rewrite <- nonSpace_TrimSpace, E. reflexivity.
Qed.

Lemma Trimmed_nonSpace (x : text) : Trimmed x -> x <> [] -> nonSpace x <> [].
Proof.
  intros Ht Hne. destruct (Trimmed_ends x Ht Hne) as ((r & x' & -> & Hr) & _).
  cbn [nonSpace filter]. rewrite Hr. discriminate.
Qed.

Lemma app_nonempty_l {A} (a b : list A) : a <> [] -> a ++ b <> [].
Proof. destruct a; [contradiction | discriminate]. Qed.

Lemma app_nonempty_r {A} (a b : list A) : b <> [] -> a ++ b <> [].
Proof. destruct a, b; try contradiction; discriminate. Qed.

Lemma combineLoop_good (m : Z) (sentences combined : list text) (temp : text) :
  Forall (fun x => x <> [] /\ Trimmed x) sentences ->
  Forall (fun x => x <> [] /\ Trimmed x) combined ->
  temp = [] \/ nonSpace temp <> [] ->
  Forall (fun x => x <> [] /\ Trimmed x) (combineLoop m sentences combined temp).
Proof.
  revert combined temp.
  induction sentences as [|x sentences IH]; intros combined temp Hs Hc Ht.
  - cbn [combineLoop]. destruct temp as [|r temp]; cbn [isEmpty negb]; [assumption|].
    apply Forall_app. split; [assumption|]. constructor; [|constructor].
    destruct Ht as [Ht|Ht]; [discriminate|].
    split; [now apply nonSpace_TrimSpace_nonempty | apply TrimSpace_trimmed].
  - inversion Hs as [|? ? [Hne Hx] Hrest]; subst. cbn [combineLoop].
    pose proof (Trimmed_nonSpace x Hx Hne) as Hns.
    destruct (Len x <? m).
    + apply IH; [assumption | assumption |]. right.
      rewrite !nonSpace_app. apply app_nonempty_r. now apply app_nonempty_l.
    + destruct (negb (isEmpty temp)).
      * apply IH; [assumption | | now left]. apply Forall_app. split; [assumption|].
        constructor; [|constructor].
        split; [|apply TrimSpace_trimmed]. apply nonSpace_TrimSpace_nonempty.
        rewrite nonSpace_app. now apply app_nonempty_r.
      * apply IH; [assumption | | now left]. apply Forall_app. split; [assumption|].
        constructor; [|constructor]. unfold Trimmed in Hx. rewrite Hx. now split.
Qed.

Lemma Forall_last_nonempty {A} (Q : A -> Prop) (l : list A) (d : A) :
  Forall Q l -> l <> [] -> Q (last l d).
Proof.
  induction l as [|x l IH]; intros H Hne; [contradiction|].
  inversion H; subst. cbn [last]. destruct l; [assumption|].
  apply IH; [assumption | discriminate].
Qed.

Section BufferHead.
Context {U : UnicodeTables}.

Lemma processChar_buffer_head (s : SentenceSplitter) (c : rune) :
  TrimLeft (buffer (fst (processChar s c))) trimLeftCutset
  = buffer (fst (processChar s c)).
Proof.
  unfold processChar. cbv zeta. fold (scannedBuffer s c).
  assert (Hscan : TrimLeft (scannedBuffer s c) trimLeftCutset = scannedBuffer s c).
  { unfold scannedBuffer, TrimLeft. apply dropWhile_fixed, dropWhile_head. }
  destruct (quickYieldFires s (scannedBuffer s c) c); [reflexivity|].
  destruct (Len (scannedBuffer s c) <=? _); [exact Hscan|].
  set (sentences := combineSentences s _).
  match goal with |- context [if ?b then _ else _] => destruct b eqn:E end;
    [|exact Hscan].
  cbn [fst buffer].
  apply andb_true_iff in E. destruct E as [E _].
  apply andb_true_iff in E. destruct E as [_ E]. apply Nat.ltb_lt in E.
  assert (Hgood : Forall (fun x => x <> [] /\ Trimmed x) sentences).
  { unfold sentences, combineSentences.
    pose proof (Tokenize_trimmed (scannedBuffer s c)
                  (SentenceFragmentDelimiters (config s))) as Hspans.
    destruct (length _ <=? 1)%nat; [exact Hspans|].
    apply combineLoop_good; [exact Hspans | constructor | now left]. }
  assert (Hlast : last sentences [] <> [] /\ Trimmed (last sentences [])).
  { apply (Forall_last_nonempty (fun x => x <> [] /\ Trimmed x) sentences []);
      [exact Hgood|].
    intros Hnil. rewrite Hnil in E. cbn in E. lia. }
  destruct Hlast as [Hne Ht].
  destruct (Trimmed_ends _ Ht Hne) as ((r & x' & Ex & Hr) & _).
  rewrite Ex. unfold TrimLeft. cbn [app dropWhile].
  destruct (ContainsRune trimLeftCutset r) eqn:Ec; [|reflexivity].
  apply trimLeftCutset_spaces in Ec. congruence.
Qed.

Lemma processChunk_buffer_head (s : SentenceSplitter) (chunk : text) :
  TrimLeft (buffer s) trimLeftCutset = buffer s ->
  TrimLeft (buffer (fst (processChunk s chunk))) trimLeftCutset
  = buffer (fst (processChunk s chunk)).
Proof.
  revert s. induction chunk as [|c chunk IH]; intros s Hs; [exact Hs|].
  cbn [processChunk]. destruct (c =? 0); [now apply IH|].
  pose proof (processChar_buffer_head s c) as H1.
  destruct (processChar s c) as [s1 sent1]. cbn [fst] in H1.
  specialize (IH s1 H1). now destruct (processChunk s1 chunk).
Qed.

(** X23.  After [Stream], the text kept in the buffer never starts with a
    space, a tab, a newline or a carriage return: what is left after a
    sentence was sent starts with the first character of the last span. *)
Theorem buffer_starts_without_space (cfg : SentenceSplitterConfig)
        (chunks : list text) :
  TrimLeft (buffer (fst (Stream (addAll (NewSentenceSplitter cfg) chunks))))
           trimLeftCutset
  = buffer (fst (Stream (addAll (NewSentenceSplitter cfg) chunks))).
Proof.
  unfold Stream. rewrite StreamTagged_flat.
  pose proof (processChunk_buffer_head (NewSentenceSplitter cfg) (concat chunks)
                eq_refl) as H.
  now destruct (processChunk (NewSentenceSplitter cfg) (concat chunks)).
Qed.

End BufferHead.
